(** * MaidSafe-CRUX [detail::periodic_timer]: a shallow embedding

    The development follows
    [include/maidsafe/crux/detail/periodic_timer.hpp].  The timer is a
    six-state machine sitting on one [boost::asio::steady_timer]; every
    member function of the class becomes a function on an explicit
    [world] that holds the object's fields, the waits outstanding with
    the reactor, and a trace of the calls made to the reactor and to
    the user handler.

    Conventions.
    - A duration is an integer ([Z]); the code never computes with it.
    - A user handler ([std::function<void()>]) is a finite script of
      calls on the timer itself; an empty [std::function] is [None].
    - [assert(0)] is the failure outcome [AssertFail] where assertions
      are compiled in; [do_handle_tick] and [run] are that build.  The
      header does not fix [NDEBUG], so [do_handle_tick_in] and [run_in]
      take the build as a parameter: with [NDEBUG] the macro expands to
      nothing and control reaches the [break] after it.
    - Calling a member of an object whose destructor has run is the
      outcome [UseAfterDestroy]; the member functions themselves, as in
      the source, do not look at the flag. *)

From Stdlib Require Import ZArith List Bool Arith Lia.
From Equations Require Import Equations.
Import ListNotations.

(** ** Data model *)

(** [enum state_type]. *)
Inductive state_type : Type :=
| stopped
| running
| executing
| canceling_to_stop
| canceling_to_start
| canceling_to_ff.

Definition state_eqb (a b : state_type) : bool :=
  match a, b with
  | stopped, stopped
  | running, running
  | executing, executing
  | canceling_to_stop, canceling_to_stop
  | canceling_to_start, canceling_to_start
  | canceling_to_ff, canceling_to_ff => true
  | _, _ => false
  end.

(** What client code (in particular the body of a handler) can do to a
    timer: the public members and the destructor. *)
#[warnings="-register-all"]
Inductive op : Type :=
| OpSetPeriod (d : Z)
| OpSetHandler (h : option (list op))
| OpStart
| OpStop
| OpFastForward
| OpDestroy.

(** [handler_type = std::function<void()>], as the script it runs. *)
Definition handler_type : Type := list op.

(** One [async_wait] registered with the reactor and not yet delivered. *)
Record wakeup : Type := mk_wakeup {
  wk_delay : Z;            (* the expiry it was registered under *)
  wk_cancelled : bool      (* cancellation has been requested *)
}.

(** [boost::asio::steady_timer], as far as the class uses it. *)
Record steady_timer : Type := mk_steady_timer {
  expiry : Z;
  waits : list wakeup
}.

(** Calls leaving the timer, in the order they happen. *)
Inductive io_event : Type :=
| ExpiresFromNow (d : Z)
| AsyncWait (d : Z) (outstanding : nat)
| Cancel
| Invoke (h : handler_type)
| TokenSet.

(** The fields of [periodic_timer], plus the trace. *)
Record world : Type := mk_world {
  state : state_type;
  period_duration : Z;
  timer : steady_timer;
  handler : option handler_type;
  was_destroyed : bool;
  trace : list io_event
}.

Definition set_state (s : state_type) (w : world) : world :=
  mk_world s (period_duration w) (timer w) (handler w)
           (was_destroyed w) (trace w).

Definition set_timer (t : steady_timer) (w : world) : world :=
  mk_world (state w) (period_duration w) t (handler w)
           (was_destroyed w) (trace w).

Definition emit (e : io_event) (w : world) : world :=
  mk_world (state w) (period_duration w) (timer w) (handler w)
           (was_destroyed w) (trace w ++ [e]).

(** ** The reactor side of [steady_timer] *)

Definition cancel_wait (k : wakeup) : wakeup :=
  mk_wakeup (wk_delay k) true.

(** [timer.cancel()]: every outstanding wait is asked to complete. *)
Definition timer_cancel (w : world) : world :=
  emit Cancel
       (set_timer (mk_steady_timer (expiry (timer w))
                                   (map cancel_wait (waits (timer w)))) w).

(** [timer.expires_from_now(d)]: sets the expiry; asio cancels the
    waits outstanding under the old one. *)
Definition timer_expires_from_now (d : Z) (w : world) : world :=
  emit (ExpiresFromNow d)
       (set_timer (mk_steady_timer d (map cancel_wait (waits (timer w)))) w).

(** [timer.async_wait(...)]: one more wait under the current expiry.
    The completion it registers is [wait_handler] below. *)
Definition timer_async_wait (w : world) : world :=
  emit (AsyncWait (expiry (timer w)) (length (waits (timer w))))
       (set_timer (mk_steady_timer
                     (expiry (timer w))
                     (waits (timer w) ++ [mk_wakeup (expiry (timer w)) false]))
                  w).

(** ** Member functions *)

(** [periodic_timer(io_service&)]: [period_duration] is left
    uninitialised by the constructor, hence the parameter. *)
Definition periodic_timer (d0 : Z) : world :=
  mk_world stopped d0 (mk_steady_timer 0 []) None false [].

(** [periodic_timer(io_service&, HandlerType&&)]. *)
Definition periodic_timer_with (d0 : Z) (h : handler_type) : world :=
  mk_world stopped d0 (mk_steady_timer 0 []) (Some h) false [].

Definition set_period (d : Z) (w : world) : world :=
  mk_world (state w) d (timer w) (handler w) (was_destroyed w) (trace w).

Definition set_handler (h : option handler_type) (w : world) : world :=
  mk_world (state w) (period_duration w) (timer w) h
           (was_destroyed w) (trace w).

Definition do_start (w : world) : world :=
  let w1 := set_state running w in
  let w2 := timer_expires_from_now (period_duration w1) w1 in
  timer_async_wait w2.

Definition stop (w : world) : world :=
  match state w with
  | stopped => w
  | running => timer_cancel (set_state canceling_to_stop w)
  | executing => set_state stopped w
  | canceling_to_stop => w
  | canceling_to_start => set_state canceling_to_stop w
  | canceling_to_ff => set_state canceling_to_stop w
  end.

(** [start] calls itself in the [running] case, after [stop] has left
    that state; the measure records this. *)
Definition start_measure (s : state_type) : nat :=
  match s with running => 1 | _ => 0 end.

Equations start (w : world) : world by wf (start_measure (state w)) lt :=
  start (mk_world stopped p t h d tr) :=
    do_start (mk_world stopped p t h d tr);
  start (mk_world running p t h d tr) :=
    start (stop (mk_world running p t h d tr));
  start (mk_world executing p t h d tr) :=
    do_start (mk_world executing p t h d tr);
  start (mk_world canceling_to_stop p t h d tr) :=
    set_state canceling_to_start (mk_world canceling_to_stop p t h d tr);
  start (mk_world canceling_to_start p t h d tr) :=
    mk_world canceling_to_start p t h d tr;
  start (mk_world canceling_to_ff p t h d tr) :=
    set_state canceling_to_start (mk_world canceling_to_ff p t h d tr).

Definition fast_forward (w : world) : world :=
  set_state canceling_to_ff (stop (start w)).

(** [~periodic_timer()]. *)
Definition periodic_timer_dtor (w : world) : world :=
  let w1 := stop w in
  emit TokenSet
       (mk_world (state w1) (period_duration w1) (timer w1) (handler w1)
                 true (trace w1)).

(** ** Outcomes of running client code *)

Inductive outcome : Type :=
| Ok (w : world)
| AssertFail
| UseAfterDestroy.

Definition bind (m : outcome) (k : world -> outcome) : outcome :=
  match m with
  | Ok w => k w
  | AssertFail => AssertFail
  | UseAfterDestroy => UseAfterDestroy
  end.

Notation "w <- m ;; k" := (bind m (fun w => k))
  (at level 61, m at next level, right associativity).

(** One call from client code.  The object must still exist. *)
Definition call (o : op) (w : world) : outcome :=
  if was_destroyed w then UseAfterDestroy
  else match o with
       | OpSetPeriod d => Ok (set_period d w)
       | OpSetHandler h => Ok (set_handler h w)
       | OpStart => Ok (start w)
       | OpStop => Ok (stop w)
       | OpFastForward => Ok (fast_forward w)
       | OpDestroy => Ok (periodic_timer_dtor w)
       end.

(** Running the body of a handler: its calls, one after the other. *)
Fixpoint call_all (ops : list op) (w : world) : outcome :=
  match ops with
  | [] => Ok w
  | o :: rest => w' <- call o w ;; call_all rest w'
  end.

(** [local_handler()]: the copy taken from the [handler] field runs to
    its end, whatever the field is set to meanwhile. *)
Definition invoke (local_handler : handler_type) (w : world) : outcome :=
  call_all local_handler (emit (Invoke local_handler) w).

(** The tail of [do_handle_tick], from [if (state == executing)]. *)
Definition restart_if_executing (w : world) : world :=
  if state_eqb (state w) executing then start w else w.

(** The part of [do_handle_tick] after the [switch]. *)
Definition execute (w : world) : outcome :=
  let w1 := set_state executing w in
  match handler w1 with
  | Some local_handler =>
      w2 <- invoke local_handler w1 ;;
      if was_destroyed w2 then Ok w2
      else Ok (restart_if_executing w2)
  | None => Ok (restart_if_executing w1)
  end.

Definition do_handle_tick (w : world) : outcome :=
  match state w with
  | stopped => Ok w
  | running => execute w
  | executing => AssertFail
  | canceling_to_stop => Ok (set_state stopped w)
  | canceling_to_start => Ok (do_start w)
  | canceling_to_ff => execute w
  end.

(** The lambda given to [async_wait] in [do_start]. *)
Definition wait_handler (w : world) : outcome :=
  if was_destroyed w then Ok w else do_handle_tick w.

(** ** The reactor delivering completions *)

(** The oldest outstanding wait completes: it leaves the reactor, then
    its completion runs.  With nothing outstanding there is nothing to
    deliver. *)
Definition take_wait (w : world) : world :=
  set_timer (mk_steady_timer (expiry (timer w)) (tl (waits (timer w)))) w.

Definition deliver (w : world) : outcome :=
  match waits (timer w) with
  | [] => Ok w
  | _ :: _ => wait_handler (take_wait w)
  end.

(** What can happen to a timer, seen from outside. *)
Inductive event : Type :=
| Call (o : op)
| Deliver.

Definition step (e : event) (w : world) : outcome :=
  match e with
  | Call o => call o w
  | Deliver => deliver w
  end.

Fixpoint run (es : list event) (w : world) : outcome :=
  match es with
  | [] => Ok w
  | e :: rest => w' <- step e w ;; run rest w'
  end.

(** ** The two builds *)

(** [do_handle_tick] as compiled with ([ndebug = true]) or without
    ([ndebug = false]) [NDEBUG].  Only [case executing: assert(0);
    break;] depends on it: with the assertion compiled out, [break]
    leaves the [switch] and the execution step follows. *)
Definition do_handle_tick_in (ndebug : bool) (w : world) : outcome :=
  match state w with
  | stopped => Ok w
  | running => execute w
  | executing => if ndebug then execute w else AssertFail
  | canceling_to_stop => Ok (set_state stopped w)
  | canceling_to_start => Ok (do_start w)
  | canceling_to_ff => execute w
  end.

Definition wait_handler_in (ndebug : bool) (w : world) : outcome :=
  if was_destroyed w then Ok w else do_handle_tick_in ndebug w.

Definition deliver_in (ndebug : bool) (w : world) : outcome :=
  match waits (timer w) with
  | [] => Ok w
  | _ :: _ => wait_handler_in ndebug (take_wait w)
  end.

Definition step_in (ndebug : bool) (e : event) (w : world) : outcome :=
  match e with
  | Call o => call o w
  | Deliver => deliver_in ndebug w
  end.

Fixpoint run_in (ndebug : bool) (es : list event) (w : world) : outcome :=
  match es with
  | [] => Ok w
  | e :: rest => w' <- step_in ndebug e w ;; run_in ndebug rest w'
  end.

(** ** Observations on a trace *)

Definition invocations (tr : list io_event) : list handler_type :=
  flat_map (fun e => match e with Invoke h => [h] | _ => [] end) tr.

Definition cancellations (tr : list io_event) : nat :=
  length (filter (fun e => match e with Cancel => true | _ => false end) tr).

Definition schedulings (tr : list io_event) : nat :=
  length (filter (fun e => match e with AsyncWait _ _ => true | _ => false end)
                 tr).

Definition token_sets (tr : list io_event) : nat :=
  length (filter (fun e => match e with TokenSet => true | _ => false end) tr).

(** An [async_wait] issued with nothing outstanding. *)
Definition scheduled_alone (e : io_event) : bool :=
  match e with
  | AsyncWait _ n => Nat.eqb n 0
  | _ => true
  end.

(** ** Consistent configurations *)

(** How many waits each state has outstanding, and whether their
    cancellation has been asked for. *)
Definition waits_ok (w : world) : bool :=
  if was_destroyed w then
    (length (waits (timer w)) <=? 1)%nat && forallb wk_cancelled (waits (timer w))
  else
    match state w, waits (timer w) with
    | stopped, [] => true
    | executing, [] => true
    | running, [k] => negb (wk_cancelled k)
    | canceling_to_stop, [k] => wk_cancelled k
    | canceling_to_start, [k] => wk_cancelled k
    | canceling_to_ff, [k] => wk_cancelled k
    | _, _ => false
    end.

(** What a trace must look like: no [async_wait] was issued on top of
    another, and the token was set once if the destructor has run and
    never otherwise. *)
Definition trace_ok (destroyed : bool) (tr : list io_event) : bool :=
  forallb scheduled_alone tr &&
  Nat.eqb (token_sets tr) (if destroyed then 1 else 0).

Definition consistent (w : world) : bool :=
  waits_ok w && trace_ok (was_destroyed w) (trace w).

(** Between two events no handler is running. *)
Definition quiescent (w : world) : bool :=
  consistent w && negb (state_eqb (state w) executing).

(** A handler body that makes no call on the timer after destroying
    it. *)
Fixpoint tidy (ops : list op) : bool :=
  match ops with
  | [] => true
  | OpDestroy :: rest => match rest with [] => true | _ :: _ => false end
  | _ :: rest => tidy rest
  end.

(** A handler body that does not assign the handler. *)
Definition keeps_handler (ops : list op) : bool :=
  forallb (fun o => match o with OpSetHandler _ => false | _ => true end) ops.

(** ** Scenarios *)

(** A new timer, with or without an initial handler. *)
Definition fresh (d0 : Z) (h0 : option handler_type) : world :=
  match h0 with
  | None => periodic_timer d0
  | Some h => periodic_timer_with d0 h
  end.

Definition world_of (o : outcome) : world :=
  match o with
  | Ok w => w
  | _ => periodic_timer 0
  end.

(** A handler that changes the period and forces the next tick. *)
Definition busy_handler : handler_type := [OpSetPeriod 20; OpFastForward].

Definition busy_events : list event :=
  [Call OpStart; Call OpStart; Deliver; Call OpFastForward; Deliver;
   Deliver; Call OpStop; Call OpStart; Deliver; Deliver; Call OpStop].

Definition busy_final : world :=
  Eval vm_compute in world_of (run busy_events (fresh 50 (Some busy_handler))).


(** A timer started with period 50 and not yet ticked. *)
Definition ticking : world :=
  Eval vm_compute in world_of (run [Call OpStart] (fresh 50 None)).

(** A timer destroyed while its wait is outstanding. *)
Definition abandoned : world :=
  Eval vm_compute in
    world_of (run [Call OpStart; Call OpDestroy] (fresh 50 (Some busy_handler))).

(** [w'] differs from [w] at most in the waits outstanding. *)
Definition untouched (w w' : world) : Prop :=
  state w' = state w /\
  period_duration w' = period_duration w /\
  handler w' = handler w /\
  was_destroyed w' = was_destroyed w /\
  trace w' = trace w.

(** A handler that replaces itself, then changes the period. *)
Definition first_handler : handler_type :=
  [OpSetHandler (Some [OpStop]); OpSetPeriod 7].

(** A started timer whose wait has just been taken for delivery. *)
Definition due (h : option handler_type) : world :=
  take_wait (start (fresh 50 h)).

(** ** Shapes of handler bodies and of runs *)

(** Calls that only reconfigure the timer. *)
Definition quiet_op (o : op) : bool :=
  match o with
  | OpSetPeriod _ | OpSetHandler _ => true
  | _ => false
  end.

Definition quiet (ops : list op) : bool := forallb quiet_op ops.

Definition period_op (o : op) : bool :=
  match o with
  | OpSetPeriod _ => true
  | _ => false
  end.

(** A body made of [set_period] calls only. *)
Definition only_periods (ops : list op) : bool := forallb period_op ops.

(** The period such a body leaves behind, starting from [d]. *)
Fixpoint last_period (ops : list op) (d : Z) : Z :=
  match ops with
  | [] => d
  | OpSetPeriod x :: rest => last_period rest x
  | _ :: rest => last_period rest d
  end.

(** How many completions a run delivers. *)
Definition deliveries (es : list event) : nat :=
  length (filter (fun e => match e with Deliver => true | Call _ => false end)
                 es).

(** Every handler invocation and every outstanding wait is accounted
    for by an [async_wait] of its own. *)
Definition ledger (w : world) : Prop :=
  (length (invocations (trace w)) + length (waits (timer w))
   <= schedulings (trace w))%nat.

(** Outstanding waits that have not been asked to cancel. *)
Definition live_waits (w : world) : nat :=
  length (filter (fun k => negb (wk_cancelled k)) (waits (timer w))).

(** Every [cancel] found a wait of its own to cancel. *)
Definition books (w : world) : Prop :=
  (cancellations (trace w) + live_waits w <= schedulings (trace w))%nat.

(** ** Unfolding lemmas *)

Lemma start_eq (w : world) :
  start w =
  match state w with
  | stopped => do_start w
  | running => start (stop w)
  | executing => do_start w
  | canceling_to_stop => set_state canceling_to_start w
  | canceling_to_start => w
  | canceling_to_ff => set_state canceling_to_start w
  end.
Proof.
  destruct w as [s p t h d tr]; destruct s; simp start; reflexivity.
Qed.

Lemma start_running (w : world) :
  state w = running ->
  start w = set_state canceling_to_start (stop w).
Proof.
  intros Hs. rewrite start_eq, Hs.
  rewrite start_eq. unfold stop. rewrite Hs. reflexivity.
Qed.

(** [start] without the recursion. *)
Lemma start_closed (w : world) :
  start w =
  match state w with
  | stopped => do_start w
  | running =>
      set_state canceling_to_start
                (timer_cancel (set_state canceling_to_stop w))
  | executing => do_start w
  | canceling_to_stop => set_state canceling_to_start w
  | canceling_to_start => w
  | canceling_to_ff => set_state canceling_to_start w
  end.
Proof.
  destruct (state w) eqn:Hs;
    try (rewrite start_eq, Hs; reflexivity).
  rewrite (start_running w Hs). unfold stop. rewrite Hs. reflexivity.
Qed.

(** ** Traces *)

Lemma token_sets_snoc (tr : list io_event) (e : io_event) :
  token_sets (tr ++ [e]) =
  (token_sets tr + match e with TokenSet => 1 | _ => 0 end)%nat.
Proof.
  unfold token_sets. rewrite filter_app, length_app.
  destruct e; reflexivity.
Qed.

Lemma trace_ok_snoc (d : bool) (tr : list io_event) (e : io_event) :
  scheduled_alone e = true ->
  e <> TokenSet ->
  trace_ok d (tr ++ [e]) = trace_ok d tr.
Proof.
  intros He Hn. unfold trace_ok.
  rewrite forallb_app, token_sets_snoc. cbn. rewrite He, !andb_true_r.
  destruct e; try congruence; rewrite Nat.add_0_r; reflexivity.
Qed.

Lemma trace_ok_cancel (d : bool) (tr : list io_event) :
  trace_ok d (tr ++ [Cancel]) = trace_ok d tr.
Proof. apply trace_ok_snoc; [reflexivity | discriminate]. Qed.

Lemma trace_ok_expires (d : bool) (tr : list io_event) (x : Z) :
  trace_ok d (tr ++ [ExpiresFromNow x]) = trace_ok d tr.
Proof. apply trace_ok_snoc; [reflexivity | discriminate]. Qed.

Lemma trace_ok_invoke (d : bool) (tr : list io_event) (h : handler_type) :
  trace_ok d (tr ++ [Invoke h]) = trace_ok d tr.
Proof. apply trace_ok_snoc; [reflexivity | discriminate]. Qed.

Lemma trace_ok_wait (d : bool) (tr : list io_event) (x : Z) :
  trace_ok d (tr ++ [AsyncWait x 0]) = trace_ok d tr.
Proof. apply trace_ok_snoc; [reflexivity | discriminate]. Qed.

Lemma trace_ok_token (tr : list io_event) :
  trace_ok true (tr ++ [TokenSet]) = trace_ok false tr.
Proof.
  unfold trace_ok. rewrite forallb_app, token_sets_snoc. cbn.
  rewrite andb_true_r. f_equal.
  destruct (token_sets tr) as [|[|n]]; reflexivity.
Qed.

Create Rewrite HintDb trace_db.
#[local] Hint Rewrite trace_ok_cancel trace_ok_expires trace_ok_invoke
  trace_ok_wait trace_ok_token : trace_db.

Arguments trace_ok : simpl never.

(** ** Preservation of consistency *)

Ltac open_world w :=
  let s := fresh "s" in
  let ws := fresh "ws" in
  let d := fresh "d" in
  destruct w as [s ? [? ws] ? d ?];
  unfold quiescent, consistent, waits_ok in *; cbn in *;
  subst; cbn in *.

Ltac by_cases s ws :=
  destruct s; destruct ws as [|[? []] [|? ?]]; cbn in *;
  autorewrite with trace_db in *; cbn in *;
  rewrite ?andb_true_r in *; cbn in *;
  try discriminate; try reflexivity; try assumption; auto.

Lemma stop_consistent (w : world) :
  was_destroyed w = false ->
  consistent w = true -> consistent (stop w) = true.
Proof.
  intros Hd Hc. open_world w. unfold stop; cbn.
  match goal with s : state_type, ws : list wakeup |- _ => by_cases s ws end.
Qed.

Lemma start_consistent (w : world) :
  was_destroyed w = false ->
  consistent w = true -> consistent (start w) = true.
Proof.
  intros Hd Hc. rewrite start_closed. open_world w.
  match goal with s : state_type, ws : list wakeup |- _ => by_cases s ws end.
Qed.

Lemma fast_forward_consistent (w : world) :
  was_destroyed w = false ->
  consistent w = true -> consistent (fast_forward w) = true.
Proof.
  intros Hd Hc. unfold fast_forward. rewrite start_closed.
  open_world w. unfold stop.
  match goal with s : state_type, ws : list wakeup |- _ => by_cases s ws end.
Qed.

Lemma dtor_consistent (w : world) :
  was_destroyed w = false ->
  consistent w = true -> consistent (periodic_timer_dtor w) = true.
Proof.
  intros Hd Hc. unfold periodic_timer_dtor, stop. open_world w.
  match goal with s : state_type, ws : list wakeup |- _ => by_cases s ws end.
Qed.

(** Liveness and the state after each member. *)

Lemma stop_alive (w : world) : was_destroyed (stop w) = was_destroyed w.
Proof. unfold stop. destruct w as [[] ? ? ? ? ?]; reflexivity. Qed.

Lemma start_alive (w : world) : was_destroyed (start w) = was_destroyed w.
Proof. rewrite start_closed. destruct w as [[] ? ? ? ? ?]; reflexivity. Qed.

Lemma fast_forward_alive (w : world) :
  was_destroyed (fast_forward w) = was_destroyed w.
Proof. unfold fast_forward. cbn. rewrite stop_alive. apply start_alive. Qed.

Lemma stop_not_executing (w : world) : state (stop w) <> executing.
Proof. unfold stop. destruct w as [[] ? ? ? ? ?]; cbn; discriminate. Qed.

Lemma start_not_executing (w : world) : state (start w) <> executing.
Proof. rewrite start_closed. destruct w as [[] ? ? ? ? ?]; cbn; discriminate. Qed.

Lemma state_eqb_neq (a b : state_type) : state_eqb a b = false <-> a <> b.
Proof. destruct a, b; cbn; split; congruence. Qed.

(** ** Client calls *)

Lemma call_alive_inv (o : op) (w w' : world) :
  call o w = Ok w' -> was_destroyed w = false.
Proof. unfold call. destruct (was_destroyed w); [discriminate | reflexivity]. Qed.

Lemma call_not_assert (o : op) (w : world) : call o w <> AssertFail.
Proof.
  unfold call. destruct (was_destroyed w); [discriminate|].
  destruct o; discriminate.
Qed.

Lemma call_consistent (o : op) (w w' : world) :
  call o w = Ok w' -> consistent w = true -> consistent w' = true.
Proof.
  intros Hc Hi. pose proof (call_alive_inv _ _ _ Hc) as Hd.
  unfold call in Hc. rewrite Hd in Hc.
  destruct o; inversion Hc; subst; clear Hc;
    auto using start_consistent, stop_consistent,
               fast_forward_consistent, dtor_consistent.
Qed.

(** A call made from outside a handler leaves no handler running. *)
Lemma call_quiescent (o : op) (w w' : world) :
  call o w = Ok w' -> quiescent w = true -> quiescent w' = true.
Proof.
  intros Hc Hq. unfold quiescent in *.
  apply andb_true_iff in Hq as [Hi He].
  rewrite (call_consistent _ _ _ Hc Hi). cbn.
  apply negb_true_iff in He. apply state_eqb_neq in He.
  apply negb_true_iff, state_eqb_neq.
  pose proof (call_alive_inv _ _ _ Hc) as Hd.
  unfold call in Hc. rewrite Hd in Hc.
  destruct o; inversion Hc; subst; clear Hc; cbn;
    auto using start_not_executing, stop_not_executing; discriminate.
Qed.

Lemma call_all_not_assert (ops : list op) (w : world) :
  call_all ops w <> AssertFail.
Proof.
  revert w. induction ops as [|o ops IH]; intros w; cbn; [discriminate|].
  destruct (call o w) eqn:Hc; cbn; auto; try discriminate.
  exfalso. exact (call_not_assert _ _ Hc).
Qed.

Lemma call_all_consistent (ops : list op) (w w' : world) :
  call_all ops w = Ok w' -> consistent w = true -> consistent w' = true.
Proof.
  revert w. induction ops as [|o ops IH]; intros w; cbn.
  - intros H; inversion H; subst; auto.
  - destruct (call o w) eqn:Hc; cbn; try discriminate.
    intros Hr Hi. eapply IH; eauto using call_consistent.
Qed.

(** Once the destructor has run inside a handler, the handler makes no
    further call, and the state it leaves is not [executing]. *)
Lemma call_all_destroyed (ops : list op) (w w' : world) :
  was_destroyed w = true -> call_all ops w = Ok w' -> ops = [] /\ w' = w.
Proof.
  intros Hd. destruct ops as [|o ops]; cbn.
  - intros H; inversion H; auto.
  - unfold call. rewrite Hd. cbn. discriminate.
Qed.

Lemma call_all_destroyed_state (ops : list op) (w w' : world) :
  was_destroyed w = false ->
  call_all ops w = Ok w' ->
  was_destroyed w' = true -> state w' <> executing.
Proof.
  revert w. induction ops as [|o ops IH]; intros w Hd; cbn.
  - intros H Hd'; inversion H; subst; congruence.
  - destruct (call o w) as [w1| |] eqn:Hc; cbn; try discriminate.
    intros Hr Hd'.
    destruct (was_destroyed w1) eqn:Hd1.
    + destruct (call_all_destroyed _ _ _ Hd1 Hr) as [_ ->].
      unfold call in Hc. rewrite Hd in Hc.
      destruct o; inversion Hc; subst; clear Hc; cbn in *;
        rewrite ?start_alive, ?stop_alive, ?fast_forward_alive in Hd1;
        try congruence.
      apply stop_not_executing.
    + eapply IH; eauto.
Qed.


(** ** Completions *)

Lemma restart_quiescent (w : world) :
  was_destroyed w = false ->
  consistent w = true -> quiescent (restart_if_executing w) = true.
Proof.
  intros Hd Hi. unfold restart_if_executing, quiescent.
  destruct (state_eqb (state w) executing) eqn:He.
  - rewrite (start_consistent _ Hd Hi). cbn.
    apply negb_true_iff, state_eqb_neq, start_not_executing.
  - rewrite Hi, He. reflexivity.
Qed.

Lemma execute_not_assert (w : world) : execute w <> AssertFail.
Proof.
  unfold execute, invoke. cbn. destruct (handler w) as [h|]; [|discriminate].
  destruct (call_all h _) as [w2| |] eqn:Hr; cbn; try discriminate.
  - destruct (was_destroyed w2); discriminate.
  - exfalso. exact (call_all_not_assert _ _ Hr).
Qed.

Lemma execute_quiescent (w w' : world) :
  was_destroyed w = false ->
  consistent (set_state executing w) = true ->
  execute w = Ok w' -> quiescent w' = true.
Proof.
  intros Hd Hi. unfold execute, invoke. cbn.
  destruct (handler w) as [h|].
  - set (w1 := emit (Invoke h) (set_state executing w)).
    assert (Hi1 : consistent w1 = true).
    { subst w1. unfold consistent, waits_ok in *. cbn in *.
      autorewrite with trace_db. exact Hi. }
    destruct (call_all h w1) as [w2| |] eqn:Hr; cbn; try discriminate.
    pose proof (call_all_consistent _ _ _ Hr Hi1) as Hi2.
    destruct (was_destroyed w2) eqn:Hd2; intros H; inversion H; subst.
    + unfold quiescent. rewrite Hi2. cbn.
      apply negb_true_iff, state_eqb_neq.
      eapply call_all_destroyed_state; [ | exact Hr | exact Hd2 ].
      exact Hd.
    + apply restart_quiescent; assumption.
  - intros H; inversion H; subst.
    exact (restart_quiescent (set_state executing w) Hd Hi).
Qed.

Lemma deliver_not_assert (w : world) :
  quiescent w = true -> deliver w <> AssertFail.
Proof.
  intros Hq. unfold deliver, wait_handler, do_handle_tick.
  destruct (waits (timer w)) eqn:Hw; [discriminate|].
  change (was_destroyed (take_wait w)) with (was_destroyed w).
  change (state (take_wait w)) with (state w).
  destruct (was_destroyed w); [discriminate|].
  unfold quiescent in Hq. apply andb_true_iff in Hq as [_ He].
  destruct (state w); try discriminate; apply execute_not_assert.
Qed.

Lemma deliver_quiescent (w w' : world) :
  quiescent w = true -> deliver w = Ok w' -> quiescent w' = true.
Proof.
  intros Hq. unfold deliver, wait_handler.
  destruct (waits (timer w)) as [|k ws] eqn:Hw.
  { intros H; inversion H; subst; assumption. }
  change (was_destroyed (take_wait w)) with (was_destroyed w).
  assert (Hone :
    forall s p e h d tr,
      w = mk_world s p (mk_steady_timer e (k :: ws)) h d tr ->
      ws = [] /\ trace_ok d tr = true /\
      (d = false -> s <> stopped /\ s <> executing)).
  { intros s p e h d tr ->. unfold quiescent, consistent, waits_ok in Hq.
    cbn in Hq. destruct d, s, ws as [|? ?], k as [? []]; cbn in Hq;
      rewrite ?andb_true_r, ?andb_false_r in Hq; try discriminate;
      (split; [reflexivity | split; [assumption|]]);
      intros; try discriminate; split; discriminate. }
  destruct w as [s p [e ws0] h d tr]. cbn in Hw. subst ws0.
  destruct (Hone _ _ _ _ _ _ eq_refl) as (-> & Htr & Hst). clear Hone.
  cbn [was_destroyed]. destruct d.
  - intros H; inversion H; subst; clear H.
    unfold quiescent, consistent, waits_ok in *. cbn in *.
    destruct k as [? []], s; cbn in *;
      rewrite ?andb_true_r, ?andb_false_r in *; try discriminate; auto.
  - destruct (Hst eq_refl) as [Hs1 Hs2].
    unfold do_handle_tick. cbn [state take_wait set_timer].
    destruct s; try congruence.
    + apply execute_quiescent; [reflexivity|].
      unfold consistent, waits_ok. cbn. exact Htr.
    + intros H; inversion H; subst; clear H.
      unfold quiescent, consistent, waits_ok. cbn.
      rewrite Htr. reflexivity.
    + intros H; inversion H; subst; clear H.
      unfold quiescent, consistent, waits_ok. cbn.
      autorewrite with trace_db. rewrite Htr. reflexivity.
    + apply execute_quiescent; [reflexivity|].
      unfold consistent, waits_ok. cbn. exact Htr.
Qed.

(** ** Runs *)

Lemma step_quiescent (e : event) (w w' : world) :
  quiescent w = true -> step e w = Ok w' -> quiescent w' = true.
Proof.
  destruct e; cbn; eauto using call_quiescent, deliver_quiescent.
Qed.

Lemma step_not_assert (e : event) (w : world) :
  quiescent w = true -> step e w <> AssertFail.
Proof.
  destruct e; cbn; auto using call_not_assert, deliver_not_assert.
Qed.

Lemma run_quiescent (es : list event) (w w' : world) :
  quiescent w = true -> run es w = Ok w' -> quiescent w' = true.
Proof.
  revert w. induction es as [|e es IH]; intros w Hq; cbn.
  - intros H; inversion H; subst; assumption.
  - destruct (step e w) eqn:Hst; cbn; try discriminate.
    eauto using step_quiescent.
Qed.

Lemma run_not_assert (es : list event) (w : world) :
  quiescent w = true -> run es w <> AssertFail.
Proof.
  revert w. induction es as [|e es IH]; intros w Hq; cbn; [discriminate|].
  destruct (step e w) eqn:Hst; cbn; try discriminate.
  - eauto using step_quiescent.
  - exfalso. exact (step_not_assert _ _ Hq Hst).
Qed.

(** The assertion in [do_handle_tick] is never reached on a run of a
    new timer. *)
Lemma assertion_unreachable
  (d0 : Z) (h0 : option handler_type) (es : list event) :
  run es (fresh d0 h0) <> AssertFail.
Proof. apply run_not_assert. destruct h0; reflexivity. Qed.

Lemma consistent_waits (w : world) :
  consistent w = true -> (length (waits (timer w)) <= 1)%nat.
Proof.
  intros Hi. open_world w.
  match goal with s : state_type, ws : list wakeup |- _ =>
    destruct d; [ destruct ws as [|? [|? ?]]; cbn in *; try lia; discriminate
                | destruct s, ws as [|? [|? ?]]; cbn in *; try lia; discriminate ]
  end.
Qed.

(** ** Counting on traces *)

Lemma invocations_snoc (tr : list io_event) (e : io_event) :
  invocations (tr ++ [e]) =
  invocations tr ++ match e with Invoke h => [h] | _ => [] end.
Proof.
  unfold invocations. rewrite flat_map_app. cbn.
  destruct e; cbn; rewrite ?app_nil_r; reflexivity.
Qed.

Lemma cancellations_snoc (tr : list io_event) (e : io_event) :
  cancellations (tr ++ [e]) =
  (cancellations tr + match e with Cancel => 1 | _ => 0 end)%nat.
Proof.
  unfold cancellations. rewrite filter_app, length_app.
  destruct e; reflexivity.
Qed.

Lemma schedulings_snoc (tr : list io_event) (e : io_event) :
  schedulings (tr ++ [e]) =
  (schedulings tr + match e with AsyncWait _ _ => 1 | _ => 0 end)%nat.
Proof.
  unfold schedulings. rewrite filter_app, length_app.
  destruct e; reflexivity.
Qed.

Arguments invocations : simpl never.
Arguments cancellations : simpl never.
Arguments schedulings : simpl never.
Arguments token_sets : simpl never.

(** ** No member function runs the handler *)

Lemma stop_invocations (w : world) :
  invocations (trace (stop w)) = invocations (trace w).
Proof.
  unfold stop. destruct w as [[] p t h d tr]; cbn;
    rewrite ?invocations_snoc, ?app_nil_r; reflexivity.
Qed.

Lemma start_invocations (w : world) :
  invocations (trace (start w)) = invocations (trace w).
Proof.
  rewrite start_closed. destruct w as [[] p t h d tr]; cbn;
    rewrite ?invocations_snoc; cbn; rewrite ?app_nil_r; reflexivity.
Qed.

Lemma fast_forward_invocations (w : world) :
  invocations (trace (fast_forward w)) = invocations (trace w).
Proof.
  unfold fast_forward. cbn. rewrite stop_invocations. apply start_invocations.
Qed.

Lemma dtor_invocations (w : world) :
  invocations (trace (periodic_timer_dtor w)) = invocations (trace w).
Proof.
  unfold periodic_timer_dtor. cbn. rewrite invocations_snoc, app_nil_r.
  apply stop_invocations.
Qed.

Lemma call_invocations (o : op) (w w' : world) :
  call o w = Ok w' -> invocations (trace w') = invocations (trace w).
Proof.
  unfold call. destruct (was_destroyed w); [discriminate|].
  destruct o; intros H; inversion H; subst; clear H;
    auto using stop_invocations, start_invocations,
               fast_forward_invocations, dtor_invocations.
Qed.

Lemma call_all_invocations (ops : list op) (w w' : world) :
  call_all ops w = Ok w' -> invocations (trace w') = invocations (trace w).
Proof.
  revert w. induction ops as [|o ops IH]; intros w; cbn.
  - intros H; inversion H; reflexivity.
  - destruct (call o w) as [w1| |] eqn:Hc; cbn; try discriminate.
    intros Hr. rewrite (IH _ Hr). eapply call_invocations; eauto.
Qed.

Lemma call_all_app (ops1 ops2 : list op) (w : world) :
  call_all (ops1 ++ ops2) w = (w' <- call_all ops1 w ;; call_all ops2 w').
Proof.
  revert w. induction ops1 as [|o ops1 IH]; intros w; cbn; [reflexivity|].
  destruct (call o w); cbn; auto.
Qed.

(** A tidy handler body runs to its end on a live timer. *)
Lemma call_all_total (ops : list op) (w : world) :
  was_destroyed w = false -> tidy ops = true ->
  exists w', call_all ops w = Ok w'.
Proof.
  revert w. induction ops as [|o ops IH]; intros w Hd Ht.
  - eexists; reflexivity.
  - cbn [call_all]. unfold call. rewrite Hd.
    destruct o; cbn in Ht |- *;
      try (apply IH; [|exact Ht];
           rewrite ?start_alive, ?stop_alive, ?fast_forward_alive; exact Hd).
    destruct ops; [eexists; reflexivity | discriminate Ht].
Qed.

(** One handled tick that executes invokes exactly the handler that
    was stored when it began. *)
Lemma execute_invocations (w w' : world) (h : handler_type) :
  handler w = Some h ->
  execute w = Ok w' ->
  invocations (trace w') = invocations (trace w) ++ [h].
Proof.
  intros Hh. unfold execute, invoke. cbn. rewrite Hh.
  destruct (call_all h _) as [w2| |] eqn:Hr; cbn; try discriminate.
  apply call_all_invocations in Hr. cbn in Hr.
  rewrite invocations_snoc in Hr.
  destruct (was_destroyed w2); intros H; inversion H; subst; clear H.
  - exact Hr.
  - unfold restart_if_executing.
    destruct (state_eqb (state w2) executing);
      rewrite ?start_invocations; exact Hr.
Qed.

Lemma execute_total (w : world) (h : handler_type) :
  handler w = Some h -> was_destroyed w = false -> tidy h = true ->
  exists w', execute w = Ok w'.
Proof.
  intros Hh Hd Ht. unfold execute, invoke. cbn. rewrite Hh.
  destruct (call_all_total h (emit (Invoke h) (set_state executing w)) Hd Ht)
    as [w2 Hr].
  rewrite Hr. cbn. destruct (was_destroyed w2); eexists; reflexivity.
Qed.

(** ** The claims *)

(** C1.  Single pending wake-up.  Whatever finite sequence of calls to
    [start], [stop], [fast_forward] (and the other members, from
    outside or from inside the handler) and of completions delivered by
    the reactor a new timer goes through, at most one wait is
    outstanding afterwards, and every [async_wait] issued on the way,
    all of them by [do_start], found no wait outstanding. *)
Theorem single_pending_wakeup
  (d0 : Z) (h0 : option handler_type) (es : list event) (w : world) :
  run es (fresh d0 h0) = Ok w ->
  (length (waits (timer w)) <= 1)%nat /\
  forallb scheduled_alone (trace w) = true.
Proof.
  intros Hr.
  assert (Hq : quiescent (fresh d0 h0) = true) by (destruct h0; reflexivity).
  pose proof (run_quiescent _ _ _ Hq Hr) as Hq'.
  unfold quiescent in Hq'. apply andb_true_iff in Hq' as [Hc _].
  split; [apply consistent_waits; exact Hc|].
  unfold consistent in Hc. apply andb_true_iff in Hc as [_ Ht].
  unfold trace_ok in Ht. apply andb_true_iff in Ht as [Ht _]. exact Ht.
Qed.

Lemma single_pending_wakeup_witness :
  run busy_events (fresh 50 (Some busy_handler)) = Ok busy_final /\
  ((length (waits (timer busy_final)) <= 1)%nat /\
   forallb scheduled_alone (trace busy_final) = true).
Proof.
  split; [reflexivity|].
  apply (single_pending_wakeup 50 (Some busy_handler) busy_events busy_final).
  reflexivity.
Defined.

Lemma fast_forward_handler (w : world) :
  handler (fast_forward w) = handler w.
Proof.
  unfold fast_forward, stop. rewrite start_closed.
  destruct w as [[] p t h d tr]; reflexivity.
Qed.

Lemma fast_forward_one_wait (w : world) :
  was_destroyed w = false -> consistent w = true ->
  exists k, waits (timer (fast_forward w)) = [k] /\ wk_cancelled k = true.
Proof.
  intros Hd Hc. unfold fast_forward, stop. rewrite start_closed.
  destruct w as [s p [e ws] h d tr]. cbn in Hd. subst d.
  unfold consistent, waits_ok in Hc. cbn in Hc.
  destruct s, ws as [|[? []] [|? ?]]; cbn in Hc; try discriminate;
    cbn; eexists; split; reflexivity.
Qed.

(** C2.  [fast_forward] never runs the handler itself: from any state
    the call returns with the list of handler invocations as it was,
    in state [canceling_to_ff].  On a consistent live timer it leaves
    exactly one wait outstanding, with its cancellation requested; the
    delivery of that wait is what executes the handler, once. *)
Theorem fast_forward_asynchronous (w : world) :
  invocations (trace (fast_forward w)) = invocations (trace w) /\
  state (fast_forward w) = canceling_to_ff /\
  (was_destroyed w = false -> consistent w = true ->
   (exists k, waits (timer (fast_forward w)) = [k] /\ wk_cancelled k = true) /\
   forall h, handler w = Some h ->
     deliver (fast_forward w) = execute (take_wait (fast_forward w)) /\
     (forall w', deliver (fast_forward w) = Ok w' ->
        invocations (trace w') = invocations (trace w) ++ [h]) /\
     (tidy h = true -> exists w', deliver (fast_forward w) = Ok w')).
Proof.
  split; [apply fast_forward_invocations|].
  split; [reflexivity|].
  intros Hd Hc.
  destruct (fast_forward_one_wait w Hd Hc) as (k & Hk & Hkc).
  split; [exists k; auto|].
  intros h Hh.
  assert (Hdel : deliver (fast_forward w) = execute (take_wait (fast_forward w))).
  { unfold deliver. rewrite Hk. unfold wait_handler, do_handle_tick.
    change (was_destroyed (take_wait (fast_forward w)))
      with (was_destroyed (fast_forward w)).
    rewrite fast_forward_alive, Hd. reflexivity. }
  assert (Hh' : handler (take_wait (fast_forward w)) = Some h).
  { change (handler (take_wait (fast_forward w)))
      with (handler (fast_forward w)).
    rewrite fast_forward_handler. exact Hh. }
  split; [exact Hdel|]. rewrite Hdel. split.
  - intros w' He.
    rewrite (execute_invocations _ _ _ Hh' He).
    change (trace (take_wait (fast_forward w))) with (trace (fast_forward w)).
    rewrite fast_forward_invocations. reflexivity.
  - intros Ht. apply (execute_total _ h Hh'); [|exact Ht].
    change (was_destroyed (take_wait (fast_forward w)))
      with (was_destroyed (fast_forward w)).
    rewrite fast_forward_alive. exact Hd.
Qed.

Lemma fast_forward_asynchronous_witness :
  was_destroyed (fresh 50 (Some busy_handler)) = false /\
  consistent (fresh 50 (Some busy_handler)) = true /\
  handler (fresh 50 (Some busy_handler)) = Some busy_handler /\
  tidy busy_handler = true /\
  invocations (trace (fast_forward (fresh 50 (Some busy_handler)))) =
  invocations (trace (fresh 50 (Some busy_handler))) /\
  exists w', deliver (fast_forward (fresh 50 (Some busy_handler))) = Ok w'.
Proof.
  pose proof (fast_forward_asynchronous (fresh 50 (Some busy_handler)))
    as (H1 & _ & H3).
  destruct (H3 eq_refl eq_refl) as (_ & H4).
  destruct (H4 busy_handler eq_refl) as (_ & _ & H5).
  split; [reflexivity|]. split; [reflexivity|]. split; [reflexivity|].
  split; [reflexivity|]. split; [exact H1 | exact (H5 eq_refl)].
Defined.

(** With assertions compiled in, [do_handle_tick] entered in state
    [executing] fails the assertion; so does the completion that calls
    it, and a run that contains such a delivery fails as a whole. *)
Lemma tick_while_executing_asserts (w : world) :
  state w = executing ->
  do_handle_tick w = AssertFail /\
  (was_destroyed w = false -> wait_handler w = AssertFail) /\
  (was_destroyed w = false -> waits (timer w) <> [] ->
   forall es, run (Deliver :: es) w = AssertFail).
Proof.
  intros Hs. split; [|split].
  - unfold do_handle_tick. rewrite Hs. reflexivity.
  - intros Hd. unfold wait_handler, do_handle_tick. rewrite Hd, Hs. reflexivity.
  - intros Hd Hw es. cbn. unfold deliver.
    destruct (waits (timer w)) eqn:E; [congruence|].
    unfold wait_handler, do_handle_tick.
    change (was_destroyed (take_wait w)) with (was_destroyed w).
    change (state (take_wait w)) with (state w).
    rewrite Hd, Hs. reflexivity.
Qed.

(** The build without [NDEBUG] is the one the rest of the development
    runs. *)
Lemma do_handle_tick_in_debug (w : world) :
  do_handle_tick_in false w = do_handle_tick w.
Proof. unfold do_handle_tick_in, do_handle_tick. destruct (state w); reflexivity. Qed.

Lemma run_in_debug (es : list event) (w : world) :
  run_in false es w = run es w.
Proof.
  revert w. induction es as [|e es IH]; intros w; cbn; [reflexivity|].
  assert (Hst : step_in false e w = step e w).
  { destruct e; cbn; [reflexivity|]. unfold deliver_in, deliver.
    destruct (waits (timer w)); [reflexivity|].
    unfold wait_handler_in, wait_handler.
    rewrite do_handle_tick_in_debug. reflexivity. }
  rewrite Hst. destruct (step e w); cbn; auto.
Qed.

(** Where no handler is running the build makes no difference; so it
    makes none on any run of a new timer. *)
Lemma step_in_quiescent (nd : bool) (e : event) (w : world) :
  quiescent w = true -> step_in nd e w = step e w.
Proof.
  intros Hq. destruct e; cbn; [reflexivity|].
  unfold deliver_in, deliver. destruct (waits (timer w)); [reflexivity|].
  unfold wait_handler_in, wait_handler, do_handle_tick_in, do_handle_tick.
  change (state (take_wait w)) with (state w).
  unfold quiescent in Hq. apply andb_true_iff in Hq as [_ He].
  destruct (state w); try reflexivity. discriminate He.
Qed.

Lemma run_in_quiescent (nd : bool) (es : list event) (w : world) :
  quiescent w = true -> run_in nd es w = run es w.
Proof.
  revert w. induction es as [|e es IH]; intros w Hq; cbn; [reflexivity|].
  rewrite (step_in_quiescent nd e w Hq).
  destruct (step e w) as [w1| |] eqn:Hst; cbn; try reflexivity.
  apply IH. exact (step_quiescent _ _ _ Hq Hst).
Qed.




(** ** After destruction *)

Lemma wait_handler_destroyed (w : world) :
  was_destroyed w = true -> wait_handler w = Ok w.
Proof. intros Hd. unfold wait_handler. rewrite Hd. reflexivity. Qed.

Lemma deliver_destroyed (w : world) :
  was_destroyed w = true ->
  exists w', deliver w = Ok w' /\ untouched w w' /\
             waits (timer w') = tl (waits (timer w)).
Proof.
  intros Hd. unfold deliver.
  destruct (waits (timer w)) as [|k ws] eqn:Hw.
  - exists w. rewrite Hw. repeat split; reflexivity.
  - exists (take_wait w). rewrite wait_handler_destroyed by exact Hd.
    cbn. rewrite Hw. repeat split; reflexivity.
Qed.

Lemma deliveries_destroyed (n : nat) (w : world) :
  was_destroyed w = true ->
  exists w', run (repeat Deliver n) w = Ok w' /\ untouched w w'.
Proof.
  revert w. induction n as [|n IH]; intros w Hd.
  - exists w. repeat split; reflexivity.
  - destruct (deliver_destroyed w Hd) as (w1 & Hdel & Hu & _).
    assert (Hd1 : was_destroyed w1 = true).
    { destruct Hu as (_ & _ & _ & Hu & _). congruence. }
    destruct (IH w1 Hd1) as (w2 & Hr & Hu2).
    exists w2. cbn. rewrite Hdel. cbn. split; [exact Hr|].
    unfold untouched in *.
    destruct Hu as (? & ? & ? & ? & ?), Hu2 as (? & ? & ? & ? & ?).
    repeat split; congruence.
Qed.

Lemma dtor_cancels (w : world) :
  was_destroyed w = false -> consistent w = true ->
  forallb wk_cancelled (waits (timer (periodic_timer_dtor w))) = true.
Proof.
  intros Hd Hc. pose proof (dtor_consistent w Hd Hc) as Hc'.
  unfold consistent in Hc'. apply andb_true_iff in Hc' as [Hw _].
  unfold waits_ok in Hw. cbn [periodic_timer_dtor was_destroyed emit] in Hw.
  apply andb_true_iff in Hw as [_ Hw]. exact Hw.
Qed.

(** C4.  On any run of a new timer the token has been set once if the
    timer was destroyed and never otherwise.  The destructor sets it
    after [stop], so with every outstanding wait already asked to
    cancel.  A completion that finds the token set returns at once:
    whatever is delivered to a destroyed timer leaves state, period,
    handler, token and trace as they were. *)
Theorem liveness_token
  (d0 : Z) (h0 : option handler_type) (es : list event) (w : world) :
  run es (fresh d0 h0) = Ok w ->
  token_sets (trace w) = (if was_destroyed w then 1 else 0)%nat /\
  (was_destroyed w = false ->
   was_destroyed (periodic_timer_dtor w) = true /\
   trace (periodic_timer_dtor w) = trace (stop w) ++ [TokenSet] /\
   token_sets (trace (periodic_timer_dtor w)) = 1%nat /\
   forallb wk_cancelled (waits (timer (periodic_timer_dtor w))) = true) /\
  (was_destroyed w = true ->
   forallb wk_cancelled (waits (timer w)) = true /\
   wait_handler w = Ok w /\
   forall n, exists w', run (repeat Deliver n) w = Ok w' /\ untouched w w') /\
  (forall w0, was_destroyed w0 = true ->
   wait_handler w0 = Ok w0 /\
   exists w', deliver w0 = Ok w' /\ untouched w0 w').
Proof.
  intros Hr.
  assert (Hq : quiescent (fresh d0 h0) = true) by (destruct h0; reflexivity).
  pose proof (run_quiescent _ _ _ Hq Hr) as Hq'.
  unfold quiescent in Hq'. apply andb_true_iff in Hq' as [Hc _].
  assert (Htok : forall v, consistent v = true ->
            token_sets (trace v) = (if was_destroyed v then 1 else 0)%nat).
  { intros v Hv. unfold consistent in Hv. apply andb_true_iff in Hv as [_ Ht].
    unfold trace_ok in Ht. apply andb_true_iff in Ht as [_ Ht].
    apply Nat.eqb_eq in Ht. exact Ht. }
  split; [exact (Htok w Hc)|]. split; [|split].
  - intros Hd. split; [reflexivity|]. split; [reflexivity|]. split.
    + exact (Htok _ (dtor_consistent w Hd Hc)).
    + exact (dtor_cancels w Hd Hc).
  - intros Hd. split; [|split].
    + unfold consistent in Hc. apply andb_true_iff in Hc as [Hw _].
      unfold waits_ok in Hw. rewrite Hd in Hw.
      apply andb_true_iff in Hw as [_ Hw]. exact Hw.
    + exact (wait_handler_destroyed w Hd).
    + intros n. exact (deliveries_destroyed n w Hd).
  - intros w0 Hd0. split; [exact (wait_handler_destroyed w0 Hd0)|].
    destruct (deliver_destroyed w0 Hd0) as (w' & H1 & H2 & _).
    exists w'. split; assumption.
Qed.

Lemma liveness_token_witness :
  run [Call OpStart; Call OpDestroy] (fresh 50 (Some busy_handler))
  = Ok abandoned /\
  was_destroyed abandoned = true /\
  token_sets (trace abandoned) = 1%nat /\
  wait_handler abandoned = Ok abandoned.
Proof.
  pose proof (liveness_token 50 (Some busy_handler)
                             [Call OpStart; Call OpDestroy] abandoned eq_refl)
    as (H1 & _ & H3 & _).
  destruct (H3 eq_refl) as (_ & H4 & _).
  split; [reflexivity|]. split; [reflexivity|].
  split; [exact H1 | exact H4].
Defined.

(** ** Inside the execution step *)

Lemma bind_ok (m : outcome) (k : world -> outcome) (w : world) :
  bind m k = Ok w -> exists w1, m = Ok w1 /\ k w1 = Ok w.
Proof. destruct m; cbn; try discriminate. eauto. Qed.

Lemma tick_executes (w : world) :
  state w = running \/ state w = canceling_to_ff ->
  do_handle_tick w = execute w.
Proof. unfold do_handle_tick. intros [-> | ->]; reflexivity. Qed.

Lemma stop_handler (w : world) : handler (stop w) = handler w.
Proof. unfold stop. destruct w as [[] p t h d tr]; reflexivity. Qed.

Lemma start_handler (w : world) : handler (start w) = handler w.
Proof. rewrite start_closed. destruct w as [[] p t h d tr]; reflexivity. Qed.

Lemma call_all_keeps_handler (ops : list op) (w w' : world) :
  keeps_handler ops = true ->
  call_all ops w = Ok w' -> handler w' = handler w.
Proof.
  revert w. induction ops as [|o ops IH]; intros w Hk; cbn.
  - intros H; inversion H; reflexivity.
  - cbn in Hk. apply andb_true_iff in Hk as [Ho Hk].
    intros Hr. apply bind_ok in Hr as (w1 & Hc & Hr).
    rewrite (IH _ Hk Hr). unfold call in Hc.
    destruct (was_destroyed w); [discriminate|].
    destruct o; try discriminate; inversion Hc; subst; clear Hc; cbn;
      rewrite ?fast_forward_handler, ?stop_handler, ?start_handler;
      reflexivity.
Qed.

(** C5.  After the handler has returned, leaving the timer as [w2],
    [do_handle_tick] looks at the token first and, if it is set,
    returns with [w2] as it is.  Otherwise it calls [start] exactly
    when the state is still [executing], and that call is [do_start]:
    the timer is [running] again with one more wait, under the current
    period.  In any other state [w2] is the result. *)
Theorem post_handler_check (w w2 : world) (h : handler_type) :
  handler w = Some h ->
  state w = running \/ state w = canceling_to_ff ->
  invoke h (set_state executing w) = Ok w2 ->
  do_handle_tick w =
  Ok (if was_destroyed w2 then w2
      else if state_eqb (state w2) executing then start w2 else w2) /\
  (was_destroyed w2 = true -> do_handle_tick w = Ok w2) /\
  (was_destroyed w2 = false -> state w2 = executing ->
   do_handle_tick w = Ok (do_start w2) /\
   state (do_start w2) = running /\
   schedulings (trace (do_start w2)) = S (schedulings (trace w2)) /\
   waits (timer (do_start w2)) =
   map cancel_wait (waits (timer w2))
       ++ [mk_wakeup (period_duration w2) false]) /\
  (was_destroyed w2 = false -> state w2 <> executing ->
   do_handle_tick w = Ok w2).
Proof.
  intros Hh Hs Hi.
  assert (Ht : do_handle_tick w =
               Ok (if was_destroyed w2 then w2
                   else if state_eqb (state w2) executing
                        then start w2 else w2)).
  { rewrite (tick_executes w Hs). unfold execute.
    change (handler (set_state executing w)) with (handler w).
    rewrite Hh, Hi. cbn. unfold restart_if_executing.
    destruct (was_destroyed w2); reflexivity. }
  split; [exact Ht|]. rewrite Ht. split; [|split].
  - intros ->. reflexivity.
  - intros -> He. rewrite He. cbn. rewrite start_closed, He.
    split; [reflexivity|]. split; [reflexivity|]. split; [|reflexivity].
    unfold do_start, timer_async_wait, timer_expires_from_now. cbn.
    rewrite !schedulings_snoc. cbn. lia.
  - intros -> He. apply state_eqb_neq in He. rewrite He. reflexivity.
Qed.

Lemma post_handler_check_witness :
  handler (due (Some [OpSetPeriod 7])) = Some [OpSetPeriod 7] /\
  state (due (Some [OpSetPeriod 7])) = running /\
  do_handle_tick (due (Some [OpSetPeriod 7])) =
  Ok (do_start (set_period 7
        (emit (Invoke [OpSetPeriod 7])
              (set_state executing (due (Some [OpSetPeriod 7])))))).
Proof.
  pose proof (post_handler_check
                (due (Some [OpSetPeriod 7]))
                (set_period 7
                   (emit (Invoke [OpSetPeriod 7])
                         (set_state executing (due (Some [OpSetPeriod 7])))))
                [OpSetPeriod 7] eq_refl (or_introl eq_refl) eq_refl)
    as (_ & _ & H3 & _).
  destruct (H3 eq_refl eq_refl) as (H4 & _).
  split; [reflexivity|]. split; [reflexivity|]. exact H4.
Defined.

(** C6.  [stop] in state [executing] only sets the state to
    [stopped]: the timer object and the trace are as before, so no
    cancellation is requested.  When that was the handler's last call,
    the check after the handler finds a state other than [executing]
    and the tick ends in [stopped] with nothing scheduled. *)
Theorem stop_inside_handler (w : world) :
  state w = executing ->
  stop w = set_state stopped w /\
  state (stop w) = stopped /\
  timer (stop w) = timer w /\
  trace (stop w) = trace w /\
  restart_if_executing (stop w) = stop w /\
  (forall w0 body,
     handler w0 = Some (body ++ [OpStop]) ->
     state w0 = running \/ state w0 = canceling_to_ff ->
     call_all body (emit (Invoke (body ++ [OpStop])) (set_state executing w0))
     = Ok w ->
     was_destroyed w = false ->
     do_handle_tick w0 = Ok (stop w)).
Proof.
  intros Hs.
  assert (Hst : stop w = set_state stopped w)
    by (unfold stop; rewrite Hs; reflexivity).
  rewrite Hst. repeat (split; [reflexivity|]).
  intros w0 body Hh Hs0 Hb Hd.
  rewrite (tick_executes w0 Hs0). unfold execute, invoke.
  change (handler (set_state executing w0)) with (handler w0).
  rewrite Hh, call_all_app, Hb. cbn. unfold call. rewrite Hd. cbn.
  rewrite Hst. cbn. rewrite Hd. reflexivity.
Qed.

Lemma stop_inside_handler_witness :
  state (emit (Invoke [OpStop]) (set_state executing (due (Some [OpStop]))))
  = executing /\
  do_handle_tick (due (Some [OpStop])) =
  Ok (stop (emit (Invoke [OpStop])
                 (set_state executing (due (Some [OpStop]))))) /\
  deliver (start (fresh 50 (Some [OpStop]))) =
  Ok (stop (emit (Invoke [OpStop])
                 (set_state executing (due (Some [OpStop]))))).
Proof.
  pose proof (stop_inside_handler
                (emit (Invoke [OpStop])
                      (set_state executing (due (Some [OpStop]))))
                eq_refl)
    as (_ & _ & _ & _ & _ & H6).
  pose proof (H6 (due (Some [OpStop])) [] eq_refl (or_introl eq_refl)
                 eq_refl eq_refl) as H7.
  split; [reflexivity|]. split; [exact H7 | exact H7].
Defined.

Lemma execute_handler_replaced
  (w w1 : world) (pre post : list op) (g : option handler_type) :
  handler w = Some (pre ++ OpSetHandler g :: post) ->
  keeps_handler post = true ->
  execute w = Ok w1 ->
  handler w1 = g.
Proof.
  intros Hh Hk. unfold execute, invoke.
  change (handler (set_state executing w)) with (handler w).
  rewrite Hh, call_all_app. intros He.
  destruct (bind_ok _ _ _ He) as (w2 & Hb & Hfin).
  destruct (bind_ok _ _ _ Hb) as (wa & _ & Hrest).
  cbn [call_all] in Hrest.
  destruct (bind_ok _ _ _ Hrest) as (wb & Hc & Hpost).
  unfold call in Hc. destruct (was_destroyed wa); [discriminate|].
  inversion Hc; subst; clear Hc.
  pose proof (call_all_keeps_handler _ _ _ Hk Hpost) as Hkept.
  cbn in Hkept.
  destruct (was_destroyed w2); injection Hfin as <-; [exact Hkept|].
  unfold restart_if_executing.
  destruct (state_eqb (state w2) executing);
    rewrite ?start_handler; exact Hkept.
Qed.

(** C9.  [set_handler] and [set_period] are plain assignments, legal
    in every state of a live timer; neither touches the state, the
    outstanding waits or the trace.  A tick invokes the handler value
    stored when it began, once and to its end, even when that body
    assigns the handler; the assigned value is what the timer holds
    afterwards and what the next tick invokes.  A new period is what
    the next [do_start] registers its wait under, while a wait already
    outstanding keeps the delay it was registered with. *)
Theorem handler_and_period_replacement
  (w w1 : world) (pre post g : handler_type) :
  handler w = Some (pre ++ OpSetHandler (Some g) :: post) ->
  state w = running \/ state w = canceling_to_ff ->
  keeps_handler post = true ->
  do_handle_tick w = Ok w1 ->
  invocations (trace w1)
  = invocations (trace w) ++ [pre ++ OpSetHandler (Some g) :: post] /\
  handler w1 = Some g /\
  (forall w2,
     state w1 = running \/ state w1 = canceling_to_ff ->
     do_handle_tick w1 = Ok w2 ->
     invocations (trace w2)
     = invocations (trace w) ++ [pre ++ OpSetHandler (Some g) :: post; g]) /\
  (forall v x,
     was_destroyed v = false ->
     call (OpSetHandler x) v = Ok (set_handler x v) /\
     handler (set_handler x v) = x /\
     state (set_handler x v) = state v /\
     period_duration (set_handler x v) = period_duration v /\
     timer (set_handler x v) = timer v /\
     trace (set_handler x v) = trace v) /\
  (forall v d,
     was_destroyed v = false ->
     call (OpSetPeriod d) v = Ok (set_period d v) /\
     period_duration (set_period d v) = d /\
     state (set_period d v) = state v /\
     handler (set_period d v) = handler v /\
     timer (set_period d v) = timer v /\
     trace (set_period d v) = trace v /\
     waits (timer (do_start (set_period d v)))
     = map cancel_wait (waits (timer v)) ++ [mk_wakeup d false]).
Proof.
  intros Hh Hs Hk Ht.
  rewrite (tick_executes w Hs) in Ht.
  pose proof (execute_invocations _ _ _ Hh Ht) as Hinv.
  pose proof (execute_handler_replaced _ _ _ _ _ Hh Hk Ht) as Hg.
  split; [exact Hinv|]. split; [exact Hg|]. split; [|split].
  - intros w2 Hs1 Ht1. rewrite (tick_executes w1 Hs1) in Ht1.
    rewrite (execute_invocations _ _ _ Hg Ht1), Hinv, <- app_assoc.
    reflexivity.
  - intros v x Hd. unfold call. rewrite Hd. repeat split; reflexivity.
  - intros v d Hd. unfold call. rewrite Hd. repeat split; reflexivity.
Qed.

Lemma handler_and_period_replacement_witness :
  handler (due (Some first_handler))
  = Some ([] ++ OpSetHandler (Some [OpStop]) :: [OpSetPeriod 7]) /\
  state (due (Some first_handler)) = running /\
  keeps_handler [OpSetPeriod 7] = true /\
  do_handle_tick (due (Some first_handler))
  = Ok (world_of (do_handle_tick (due (Some first_handler)))) /\
  handler (world_of (do_handle_tick (due (Some first_handler))))
  = Some [OpStop] /\
  invocations (trace (world_of (do_handle_tick (due (Some first_handler)))))
  = invocations (trace (due (Some first_handler))) ++ [first_handler].
Proof.
  pose proof (handler_and_period_replacement
                (due (Some first_handler))
                (world_of (do_handle_tick (due (Some first_handler))))
                [] [OpSetPeriod 7] [OpStop]
                eq_refl (or_introl eq_refl) eq_refl eq_refl)
    as (H1 & H2 & _).
  split; [reflexivity|]. split; [reflexivity|]. split; [reflexivity|].
  split; [reflexivity|]. split; [exact H2 | exact H1].
Defined.

(** C7.  [start] in state [running] asks the reactor for one
    cancellation and nothing else: the state becomes
    [canceling_to_start], the trace grows by exactly one [Cancel], no
    wait is added.  [do_start] runs when a completion is then handled
    in state [canceling_to_start]; for a consistent timer that is the
    delivery of the cancelled wait. *)
Theorem start_while_running (w : world) :
  state w = running ->
  state (start w) = canceling_to_start /\
  trace (start w) = trace w ++ [Cancel] /\
  cancellations (trace (start w)) = S (cancellations (trace w)) /\
  schedulings (trace (start w)) = schedulings (trace w) /\
  waits (timer (start w)) = map cancel_wait (waits (timer w)) /\
  do_handle_tick (start w) = Ok (do_start (start w)) /\
  (was_destroyed w = false -> consistent w = true ->
   deliver (start w) = Ok (do_start (take_wait (start w))) /\
   schedulings (trace (do_start (take_wait (start w)))) =
   S (schedulings (trace w))).
Proof.
  intros Hs. rewrite start_closed, Hs.
  destruct w as [s p [e ws] h d tr]. cbn in Hs. subst s. cbn.
  rewrite cancellations_snoc, schedulings_snoc, Nat.add_0_r, Nat.add_1_r.
  repeat (split; [reflexivity|]).
  intros -> Hc. unfold consistent, waits_ok in Hc. cbn in Hc.
  destruct ws as [|k [|? ?]]; cbn in Hc; try discriminate.
  cbn. split; [reflexivity|].
  rewrite !schedulings_snoc. cbn. lia.
Qed.

Lemma start_while_running_witness :
  state ticking = running /\
  was_destroyed ticking = false /\
  consistent ticking = true /\
  state (start ticking) = canceling_to_start /\
  cancellations (trace (start ticking)) = S (cancellations (trace ticking)) /\
  deliver (start ticking) = Ok (do_start (take_wait (start ticking))).
Proof.
  pose proof (start_while_running ticking eq_refl)
    as (H1 & _ & H3 & _ & _ & _ & H7).
  destruct (H7 eq_refl eq_refl) as [H8 _].
  split; [reflexivity|]. split; [reflexivity|]. split; [reflexivity|].
  split; [exact H1|]. split; [exact H3 | exact H8].
Defined.

(** C8.  [stop] on a stopped timer returns the timer as it was: state,
    period, handler, outstanding waits and trace (so no reactor call).
    From any state [stop] lands in [stopped] or [canceling_to_stop],
    where a second [stop] changes nothing: [stop] is idempotent. *)
Theorem stop_idempotent (w : world) :
  (state w = stopped -> stop w = w) /\
  (state w = canceling_to_stop -> stop w = w) /\
  (state (stop w) = stopped \/ state (stop w) = canceling_to_stop) /\
  stop (stop w) = stop w.
Proof.
  unfold stop.
  destruct w as [[] p t h d tr]; cbn;
    repeat split; auto; try discriminate.
Qed.

Lemma stop_idempotent_witness :
  state (fresh 50 None) = stopped /\
  stop (fresh 50 None) = fresh 50 None /\
  stop (stop ticking) = stop ticking.
Proof.
  pose proof (stop_idempotent (fresh 50 None)) as (H1 & _).
  pose proof (stop_idempotent ticking) as (_ & _ & _ & H4).
  split; [reflexivity|]. split; [exact (H1 eq_refl) | exact H4].
Defined.

(** C10.  With no handler set, a tick handled in state [running] or
    [canceling_to_ff] invokes nothing, goes through [executing] and
    calls [start] there, which schedules the next wait under the
    current period and leaves the timer [running]. *)
Theorem tick_without_handler (w : world) :
  handler w = None ->
  state w = running \/ state w = canceling_to_ff ->
  do_handle_tick w = Ok (start (set_state executing w)) /\
  start (set_state executing w) = do_start w /\
  state (do_start w) = running /\
  invocations (trace (do_start w)) = invocations (trace w) /\
  schedulings (trace (do_start w)) = S (schedulings (trace w)) /\
  waits (timer (do_start w)) =
  map cancel_wait (waits (timer w)) ++ [mk_wakeup (period_duration w) false].
Proof.
  intros Hh Hs.
  assert (Ht : do_handle_tick w = execute w).
  { unfold do_handle_tick. destruct Hs as [-> | ->]; reflexivity. }
  rewrite Ht. unfold execute. cbn. rewrite Hh.
  unfold restart_if_executing. cbn.
  rewrite start_closed. cbn.
  repeat (split; [reflexivity|]).
  rewrite !invocations_snoc, !schedulings_snoc. cbn.
  rewrite !app_nil_r. split; [reflexivity|]. split; [lia | reflexivity].
Qed.

Lemma tick_without_handler_witness :
  handler (take_wait ticking) = None /\
  state (take_wait ticking) = running /\
  do_handle_tick (take_wait ticking) =
  Ok (start (set_state executing (take_wait ticking))) /\
  state (do_start (take_wait ticking)) = running.
Proof.
  pose proof (tick_without_handler (take_wait ticking) eq_refl
                                   (or_introl eq_refl))
    as (H1 & _ & H3 & _).
  split; [reflexivity|]. split; [reflexivity|]. split; [exact H1 | exact H3].
Defined.

(** ** Further properties of the state machine *)

(** X1.  On no run of a new timer is the assertion of
    [do_handle_tick] reached, and between two events the state is
    never [executing]: a completion cannot find a handler running. *)
Theorem no_reentry
  (d0 : Z) (h0 : option handler_type) (es : list event) :
  run es (fresh d0 h0) <> AssertFail /\
  forall w, run es (fresh d0 h0) = Ok w -> state w <> executing.
Proof.
  assert (Hq : quiescent (fresh d0 h0) = true) by (destruct h0; reflexivity).
  split; [exact (run_not_assert es _ Hq)|].
  intros w Hr. pose proof (run_quiescent _ _ _ Hq Hr) as Hq'.
  unfold quiescent in Hq'. apply andb_true_iff in Hq' as [_ He].
  apply negb_true_iff, state_eqb_neq in He. exact He.
Qed.

Lemma no_reentry_witness :
  run busy_events (fresh 50 (Some busy_handler)) = Ok busy_final /\
  state busy_final <> executing.
Proof.
  destruct (no_reentry 50 (Some busy_handler) busy_events) as [_ H].
  split; [reflexivity | exact (H busy_final eq_refl)].
Defined.

(** X2.  On every run of a new timer, as long as it is alive, the
    state tells what is outstanding with the reactor: nothing when
    [stopped], one wait not asked to cancel when [running], one wait
    asked to cancel in the three cancelling states. *)
Theorem outstanding_matches_state
  (d0 : Z) (h0 : option handler_type) (es : list event) (w : world) :
  run es (fresh d0 h0) = Ok w ->
  was_destroyed w = false ->
  match state w with
  | stopped => waits (timer w) = []
  | running => exists d, waits (timer w) = [mk_wakeup d false]
  | executing => False
  | _ => exists d, waits (timer w) = [mk_wakeup d true]
  end.
Proof.
  intros Hr Hd.
  assert (Hq : quiescent (fresh d0 h0) = true) by (destruct h0; reflexivity).
  pose proof (run_quiescent _ _ _ Hq Hr) as Hq'. clear Hr Hq.
  unfold quiescent, consistent in Hq'.
  apply andb_true_iff in Hq' as [Hc He].
  apply andb_true_iff in Hc as [Hw _].
  unfold waits_ok in Hw. rewrite Hd in Hw.
  destruct (state w), (waits (timer w)) as [|[x []] [|? ?]];
    cbn in Hw, He; try discriminate; try reflexivity; eauto.
Qed.

Lemma outstanding_matches_state_witness :
  run busy_events (fresh 50 (Some busy_handler)) = Ok busy_final /\
  was_destroyed busy_final = false /\
  state busy_final = canceling_to_stop /\
  exists d, waits (timer busy_final) = [mk_wakeup d true].
Proof.
  split; [reflexivity|]. split; [reflexivity|]. split; [reflexivity|].
  exact (outstanding_matches_state 50 (Some busy_handler) busy_events
                                   busy_final eq_refl eq_refl).
Defined.

(** X3.  How the three public transitions compose, in every state: a
    [stop] before [start] changes nothing; [fast_forward] absorbs a
    preceding [start], [stop] or [fast_forward]; after [fast_forward],
    [stop] and [start] act as after [start]; a third [start] in a row
    adds nothing to the second. *)
Theorem member_composition (w : world) :
  start (stop w) = start w /\
  fast_forward (fast_forward w) = fast_forward w /\
  fast_forward (start w) = fast_forward w /\
  fast_forward (stop w) = fast_forward w /\
  stop (fast_forward w) = stop (start w) /\
  start (fast_forward w) = start (start w) /\
  start (start (start w)) = start (start w).
Proof.
  unfold fast_forward, stop. rewrite !start_closed.
  destruct w as [[] p [e ws] h d tr]; cbn;
    rewrite ?map_map; repeat split; reflexivity.
Qed.

Lemma deliveries_idle (n : nat) (w : world) :
  waits (timer w) = [] -> run (repeat Deliver n) w = Ok w.
Proof.
  intros Hw. induction n as [|n IH]; cbn; [reflexivity|].
  unfold deliver. rewrite Hw. cbn. exact IH.
Qed.

(** X4.  After [stop], called from outside a handler on a live timer,
    the handler is not executed by any number of deliveries, nothing
    is scheduled, and from the first delivery on the timer rests in
    [stopped] with nothing outstanding. *)
Theorem stop_silences (w : world) (n : nat) :
  quiescent w = true ->
  was_destroyed w = false ->
  exists w',
    run (repeat Deliver n) (stop w) = Ok w' /\
    invocations (trace w') = invocations (trace w) /\
    schedulings (trace w') = schedulings (trace w) /\
    ((1 <= n)%nat -> state w' = stopped /\ waits (timer w') = []).
Proof.
  intros Hq Hd.
  unfold quiescent, consistent in Hq.
  apply andb_true_iff in Hq as [Hc He].
  apply andb_true_iff in Hc as [Hw _].
  unfold waits_ok in Hw. rewrite Hd in Hw.
  destruct n as [|n].
  { exists (stop w). split; [reflexivity|].
    split; [apply stop_invocations|]. split; [|lia].
    unfold stop. destruct w as [[] p t h d tr]; cbn;
      rewrite ?schedulings_snoc, ?Nat.add_0_r; reflexivity. }
  destruct w as [s p [e ws] h d tr]. cbn in Hd, Hw, He. subst d.
  unfold stop. cbn [repeat run step].
  destruct s, ws as [|[x []] [|? ?]]; cbn in Hw, He; try discriminate; cbn;
    rewrite deliveries_idle by reflexivity;
    eexists; (split; [reflexivity|]); cbn;
    rewrite ?invocations_snoc, ?schedulings_snoc, ?app_nil_r, ?Nat.add_0_r;
    auto.
Qed.

Lemma stop_silences_witness :
  quiescent ticking = true /\
  was_destroyed ticking = false /\
  exists w',
    run (repeat Deliver 3) (stop ticking) = Ok w' /\
    invocations (trace w') = invocations (trace ticking) /\
    schedulings (trace w') = schedulings (trace ticking) /\
    ((1 <= 3)%nat -> state w' = stopped /\ waits (timer w') = []).
Proof.
  split; [reflexivity|]. split; [reflexivity|].
  exact (stop_silences ticking 3 eq_refl eq_refl).
Defined.

(** X5.  [start] on a live timer outside a handler.  From [stopped]
    it registers one wait under the current period.  From any other
    state it registers nothing: the wait already outstanding is (or
    stays) asked to cancel, and its completion, instead of executing
    the handler, registers the new wait under the period current at
    that moment. *)
Theorem start_restarts_period (w : world) (d : Z) :
  quiescent w = true ->
  was_destroyed w = false ->
  (state w = stopped ->
   state (start w) = running /\
   waits (timer (start w)) = [mk_wakeup (period_duration w) false]) /\
  (state w <> stopped ->
   state (start w) = canceling_to_start /\
   schedulings (trace (start w)) = schedulings (trace w) /\
   (exists x, waits (timer (start w)) = [mk_wakeup x true]) /\
   exists w',
     deliver (set_period d (start w)) = Ok w' /\
     state w' = running /\
     waits (timer w') = [mk_wakeup d false] /\
     invocations (trace w') = invocations (trace w)).
Proof.
  intros Hq Hd.
  unfold quiescent, consistent in Hq.
  apply andb_true_iff in Hq as [Hc He].
  apply andb_true_iff in Hc as [Hw _].
  unfold waits_ok in Hw. rewrite Hd in Hw.
  rewrite start_closed.
  destruct w as [s p [e ws] h dd tr]. cbn in Hd, Hw, He. subst dd.
  destruct s, ws as [|[x []] [|? ?]]; cbn in Hw, He; try discriminate;
    (split; intros Hs; cbn in Hs; try congruence); cbn;
    try (split; reflexivity);
    (split; [reflexivity|]);
    (split; [rewrite ?schedulings_snoc, ?Nat.add_0_r; reflexivity|]);
    (split; [eexists; reflexivity|]);
    eexists; (split; [reflexivity|]); cbn;
    rewrite ?invocations_snoc, ?app_nil_r; auto.
Qed.

Lemma start_restarts_period_witness :
  quiescent ticking = true /\
  was_destroyed ticking = false /\
  state ticking <> stopped /\
  state (start ticking) = canceling_to_start /\
  exists w',
    deliver (set_period 9 (start ticking)) = Ok w' /\
    state w' = running /\
    waits (timer w') = [mk_wakeup 9 false] /\
    invocations (trace w') = invocations (trace ticking).
Proof.
  destruct (start_restarts_period ticking 9 eq_refl eq_refl) as [_ H].
  assert (Hs : state ticking <> stopped) by discriminate.
  destruct (H Hs) as (H1 & _ & _ & H4).
  split; [reflexivity|]. split; [reflexivity|]. split; [exact Hs|].
  split; [exact H1 | exact H4].
Defined.

Lemma deliver_invocations (w w' : world) :
  deliver w = Ok w' ->
  exists hs, invocations (trace w') = invocations (trace w) ++ hs /\
             (length hs <= 1)%nat.
Proof.
  unfold deliver, wait_handler.
  destruct (waits (timer w)) as [|k ws].
  { intros H; inversion H; subst. exists []. rewrite app_nil_r. auto. }
  change (was_destroyed (take_wait w)) with (was_destroyed w).
  destruct (was_destroyed w).
  { intros H; inversion H; subst. exists []. rewrite app_nil_r. auto. }
  assert (Hex : execute (take_wait w) = Ok w' ->
          exists hs, invocations (trace w') = invocations (trace w) ++ hs /\
                     (length hs <= 1)%nat).
  { intros He. destruct (handler (take_wait w)) as [h|] eqn:Hh.
    - exists [h]. split; [|cbn; lia].
      exact (execute_invocations _ _ _ Hh He).
    - unfold execute in He. cbn in He, Hh. rewrite Hh in He.
      inversion He; subst. exists []. rewrite app_nil_r. split; [|cbn; lia].
      apply (start_invocations (set_state executing (take_wait w))). }
  unfold do_handle_tick. change (state (take_wait w)) with (state w).
  destruct (state w); try discriminate; try exact Hex;
    intros H; inversion H; subst; exists []; rewrite app_nil_r;
    (split; [|cbn; lia]); cbn;
    rewrite ?invocations_snoc, ?app_nil_r; reflexivity.
Qed.

(** X6.  The handler runs only when the reactor delivers a completion,
    and at most once per delivery: over any run, from any
    configuration, the invocations grow by no more than the number of
    deliveries; calls to the members add none. *)
Theorem one_invocation_per_delivery (es : list event) (w w' : world) :
  run es w = Ok w' ->
  exists hs, invocations (trace w') = invocations (trace w) ++ hs /\
             (length hs <= deliveries es)%nat.
Proof.
  revert w. induction es as [|e es IH]; intros w; cbn [run].
  - intros H; inversion H; subst. exists []. rewrite app_nil_r. auto.
  - intros Hr. apply bind_ok in Hr as (w1 & Hst & Hr).
    destruct (IH _ Hr) as (hs & Hhs & Hlen).
    destruct e as [o|]; cbn in Hst.
    + exists hs. rewrite Hhs, (call_invocations _ _ _ Hst).
      split; [reflexivity | exact Hlen].
    + destruct (deliver_invocations _ _ Hst) as (h1 & Hh1 & Hl1).
      exists (h1 ++ hs). rewrite Hhs, Hh1, app_assoc.
      split; [reflexivity|]. rewrite length_app.
      unfold deliveries in *. cbn. lia.
Qed.

Lemma one_invocation_per_delivery_witness :
  run busy_events (fresh 50 (Some busy_handler)) = Ok busy_final /\
  exists hs,
    invocations (trace busy_final)
    = invocations (trace (fresh 50 (Some busy_handler))) ++ hs /\
    (length hs <= deliveries busy_events)%nat.
Proof.
  split; [reflexivity|].
  exact (one_invocation_per_delivery busy_events
           (fresh 50 (Some busy_handler)) busy_final eq_refl).
Defined.

Lemma call_state (o : op) (w w' : world) :
  call o w = Ok w' ->
  if quiet_op o then state w' = state w else state w' <> executing.
Proof.
  unfold call. destruct (was_destroyed w); [discriminate|].
  destruct o; intros H; inversion H; subst; clear H; cbn;
    auto using start_not_executing, stop_not_executing; discriminate.
Qed.

Lemma call_all_not_executing (ops : list op) (w w' : world) :
  state w <> executing -> call_all ops w = Ok w' -> state w' <> executing.
Proof.
  revert w. induction ops as [|o ops IH]; intros w Hs; cbn.
  - intros H; inversion H; subst; exact Hs.
  - intros Hr. apply bind_ok in Hr as (w1 & Hc & Hr).
    apply (IH w1); [|exact Hr].
    pose proof (call_state _ _ _ Hc) as Hst.
    destruct (quiet_op o); congruence.
Qed.

(** X7.  When the handler returns, the state is still [executing]
    exactly when its body made no call other than [set_period] and
    [set_handler]; any [start], [stop], [fast_forward] or destruction
    it made is what the timer keeps, whatever followed it in the
    body. *)
Theorem restart_iff_quiet (body : list op) (w w' : world) :
  state w = executing ->
  call_all body w = Ok w' ->
  (state w' = executing <-> quiet body = true).
Proof.
  revert w. induction body as [|o body IH]; intros w Hs; cbn.
  - intros H; inversion H; subst. tauto.
  - intros Hr. apply bind_ok in Hr as (w1 & Hc & Hr).
    pose proof (call_state _ _ _ Hc) as Hst.
    destruct (quiet_op o); cbn.
    + apply (IH w1); [congruence | exact Hr].
    + pose proof (call_all_not_executing _ _ _ Hst Hr) as Hne.
      split; [contradiction | discriminate].
Qed.

Lemma restart_iff_quiet_witness :
  state (set_state executing (due None)) = executing /\
  call_all busy_handler (set_state executing (due None))
  = Ok (world_of (call_all busy_handler (set_state executing (due None)))) /\
  (state (world_of (call_all busy_handler (set_state executing (due None))))
   = executing <-> quiet busy_handler = true).
Proof.
  split; [reflexivity|]. split; [reflexivity|].
  exact (restart_iff_quiet busy_handler (set_state executing (due None))
           (world_of (call_all busy_handler (set_state executing (due None))))
           eq_refl eq_refl).
Defined.

Lemma last_period_idem (ops : list op) (d : Z) :
  last_period ops (last_period ops d) = last_period ops d.
Proof.
  revert d. induction ops as [|o ops IH]; intros d; [reflexivity|].
  destruct o; cbn; auto.
Qed.

Lemma call_all_only_periods (ops : list op) (w : world) :
  was_destroyed w = false ->
  only_periods ops = true ->
  call_all ops w =
  Ok (mk_world (state w) (last_period ops (period_duration w)) (timer w)
               (handler w) (was_destroyed w) (trace w)).
Proof.
  revert w. induction ops as [|o ops IH]; intros w Hd Hp.
  - destruct w; reflexivity.
  - cbn in Hp. apply andb_true_iff in Hp as [Ho Hp].
    destruct o; try discriminate Ho.
    cbn [call_all]. unfold call. rewrite Hd. cbn [bind].
    rewrite (IH (set_period d w) Hd Hp). cbn. rewrite ?Hd. reflexivity.
Qed.

(** One tick of a running timer whose handler only sets the period. *)
Lemma tick_only_periods (w : world) (h : handler_type) :
  quiescent w = true ->
  was_destroyed w = false ->
  state w = running ->
  handler w = Some h ->
  only_periods h = true ->
  exists w1,
    deliver w = Ok w1 /\
    (quiescent w1 = true /\ was_destroyed w1 = false /\
     state w1 = running /\ handler w1 = Some h) /\
    period_duration w1 = last_period h (period_duration w) /\
    trace w1 =
    trace w ++ [Invoke h;
                ExpiresFromNow (last_period h (period_duration w));
                AsyncWait (last_period h (period_duration w)) 0] /\
    invocations (trace w1) = invocations (trace w) ++ [h] /\
    schedulings (trace w1) = S (schedulings (trace w)) /\
    waits (timer w1) = [mk_wakeup (last_period h (period_duration w)) false].
Proof.
  intros Hq Hd Hs Hh Hp.
  assert (Hw : exists x, waits (timer w) = [mk_wakeup x false]).
  { unfold quiescent, consistent in Hq.
    apply andb_true_iff in Hq as [Hc _].
    apply andb_true_iff in Hc as [Hw _].
    unfold waits_ok in Hw. rewrite Hd, Hs in Hw.
    destruct (waits (timer w)) as [|[x []] [|? ?]]; try discriminate; eauto. }
  destruct Hw as [x Hw].
  assert (Hdel : deliver w =
    Ok (do_start
          (mk_world executing (last_period h (period_duration w))
                    (mk_steady_timer (expiry (timer w)) [])
                    (Some h) false (trace w ++ [Invoke h])))).
  { unfold deliver, wait_handler, do_handle_tick. rewrite Hw.
    change (was_destroyed (take_wait w)) with (was_destroyed w).
    change (state (take_wait w)) with (state w).
    rewrite Hd, Hs. unfold execute, invoke.
    change (handler (set_state executing (take_wait w))) with (handler w).
    rewrite Hh.
    rewrite call_all_only_periods by (cbn; assumption).
    cbn. rewrite Hd, Hh, Hw. cbn. unfold restart_if_executing. cbn.
    rewrite start_closed. reflexivity. }
  eexists. split; [exact Hdel|].
  split; [split; [exact (deliver_quiescent _ _ Hq Hdel)
                 | repeat split; reflexivity]|].
  cbn. split; [reflexivity|].
  split; [rewrite <- !app_assoc; reflexivity|].
  rewrite !invocations_snoc, !schedulings_snoc, !app_nil_r. cbn.
  split; [reflexivity|]. split; [lia | reflexivity].
Qed.

Lemma cycle_only_periods (n : nat) (w : world) (h : handler_type) :
  quiescent w = true ->
  was_destroyed w = false ->
  state w = running ->
  handler w = Some h ->
  only_periods h = true ->
  exists w',
    run (repeat Deliver n) w = Ok w' /\
    (quiescent w' = true /\ was_destroyed w' = false /\
     state w' = running /\ handler w' = Some h) /\
    invocations (trace w') = invocations (trace w) ++ repeat h n /\
    schedulings (trace w') = (schedulings (trace w) + n)%nat /\
    ((1 <= n)%nat ->
     period_duration w' = last_period h (period_duration w) /\
     waits (timer w') = [mk_wakeup (last_period h (period_duration w)) false]).
Proof.
  revert w. induction n as [|n IH]; intros w Hq Hd Hs Hh Hp.
  - exists w. cbn. rewrite app_nil_r, Nat.add_0_r.
    repeat split; auto; lia.
  - destruct (tick_only_periods w h Hq Hd Hs Hh Hp)
      as (w1 & Hdel & (Hq1 & Hd1 & Hs1 & Hh1) & Hp1 & _ & Hi1 & Hsc1 & Hw1).
    destruct (IH w1 Hq1 Hd1 Hs1 Hh1 Hp)
      as (w' & Hr & Hinv & Hi & Hsc & Hlast).
    exists w'. cbn [repeat run step]. rewrite Hdel. cbn [bind].
    split; [exact Hr|]. split; [exact Hinv|].
    rewrite Hi, Hsc, Hi1, Hsc1, <- app_assoc. cbn.
    split; [reflexivity|]. split; [lia|].
    intros _. destruct n as [|n].
    + cbn in Hr. inversion Hr; subst. split; assumption.
    + destruct Hlast as [Ha Hb]; [lia|].
      rewrite Ha, Hb, Hp1, last_period_idem. split; reflexivity.
Qed.

(** X8.  The periodic cycle.  A running timer whose handler only calls
    [set_period] executes the handler once per delivery and is
    [running] again after each, with the same handler and one wait,
    registered after the handler returned and under the period the
    handler left. *)
Theorem periodic_cycle (n : nat) (w : world) (h : handler_type) :
  quiescent w = true ->
  was_destroyed w = false ->
  state w = running ->
  handler w = Some h ->
  only_periods h = true ->
  exists w',
    run (repeat Deliver n) w = Ok w' /\
    state w' = running /\
    handler w' = Some h /\
    invocations (trace w') = invocations (trace w) ++ repeat h n /\
    schedulings (trace w') = (schedulings (trace w) + n)%nat /\
    ((1 <= n)%nat ->
     period_duration w' = last_period h (period_duration w) /\
     waits (timer w') = [mk_wakeup (last_period h (period_duration w)) false]).
Proof.
  intros Hq Hd Hs Hh Hp.
  destruct (cycle_only_periods n w h Hq Hd Hs Hh Hp)
    as (w' & Hr & (_ & _ & Hs' & Hh') & Hi & Hsc & Hl).
  exists w'. repeat (split; [assumption|]). exact Hl.
Qed.

Lemma periodic_cycle_witness :
  quiescent (start (fresh 50 (Some [OpSetPeriod 7]))) = true /\
  was_destroyed (start (fresh 50 (Some [OpSetPeriod 7]))) = false /\
  state (start (fresh 50 (Some [OpSetPeriod 7]))) = running /\
  handler (start (fresh 50 (Some [OpSetPeriod 7]))) = Some [OpSetPeriod 7] /\
  only_periods [OpSetPeriod 7] = true /\
  exists w',
    run (repeat Deliver 4) (start (fresh 50 (Some [OpSetPeriod 7]))) = Ok w' /\
    state w' = running /\
    handler w' = Some [OpSetPeriod 7] /\
    invocations (trace w')
    = invocations (trace (start (fresh 50 (Some [OpSetPeriod 7]))))
      ++ repeat [OpSetPeriod 7] 4 /\
    schedulings (trace w')
    = (schedulings (trace (start (fresh 50 (Some [OpSetPeriod 7])))) + 4)%nat /\
    ((1 <= 4)%nat ->
     period_duration w'
     = last_period [OpSetPeriod 7]
         (period_duration (start (fresh 50 (Some [OpSetPeriod 7])))) /\
     waits (timer w')
     = [mk_wakeup
          (last_period [OpSetPeriod 7]
             (period_duration (start (fresh 50 (Some [OpSetPeriod 7])))))
          false]).
Proof.
  split; [reflexivity|]. split; [reflexivity|]. split; [reflexivity|].
  split; [reflexivity|]. split; [reflexivity|].
  exact (periodic_cycle 4 (start (fresh 50 (Some [OpSetPeriod 7])))
                        [OpSetPeriod 7]
                        eq_refl eq_refl eq_refl eq_refl eq_refl).
Defined.

Lemma stop_schedulings (w : world) :
  schedulings (trace (stop w)) = schedulings (trace w).
Proof.
  unfold stop. destruct w as [[] p t h d tr]; cbn;
    rewrite ?schedulings_snoc, ?Nat.add_0_r; reflexivity.
Qed.

(** X9.  A handler whose last call destroys the timer: the tick ends
    with the destructor's result.  The token is set, nothing is
    scheduled after it, and when the body had left the state at
    [executing] the timer object is as the body left it, in state
    [stopped]; later deliveries change nothing. *)
Theorem destroy_inside_handler (w0 w : world) (body : list op) :
  handler w0 = Some (body ++ [OpDestroy]) ->
  state w0 = running \/ state w0 = canceling_to_ff ->
  call_all body (emit (Invoke (body ++ [OpDestroy])) (set_state executing w0))
  = Ok w ->
  was_destroyed w = false ->
  do_handle_tick w0 = Ok (periodic_timer_dtor w) /\
  was_destroyed (periodic_timer_dtor w) = true /\
  schedulings (trace (periodic_timer_dtor w)) = schedulings (trace w) /\
  (state w = executing ->
   state (periodic_timer_dtor w) = stopped /\
   timer (periodic_timer_dtor w) = timer w /\
   trace (periodic_timer_dtor w) = trace w ++ [TokenSet]) /\
  (forall n, exists w',
     run (repeat Deliver n) (periodic_timer_dtor w) = Ok w' /\
     untouched (periodic_timer_dtor w) w').
Proof.
  intros Hh Hs Hb Hd.
  split; [|split; [reflexivity|split; [|split]]].
  - rewrite (tick_executes w0 Hs). unfold execute, invoke.
    change (handler (set_state executing w0)) with (handler w0).
    rewrite Hh, call_all_app, Hb. cbn. unfold call. rewrite Hd. reflexivity.
  - unfold periodic_timer_dtor. cbn.
    rewrite schedulings_snoc, Nat.add_0_r. apply stop_schedulings.
  - intros He. unfold periodic_timer_dtor, stop. rewrite He.
    repeat split; reflexivity.
  - intros n. apply deliveries_destroyed. reflexivity.
Qed.

Lemma destroy_inside_handler_witness :
  handler (due (Some [OpSetPeriod 7; OpDestroy]))
  = Some ([OpSetPeriod 7] ++ [OpDestroy]) /\
  state (due (Some [OpSetPeriod 7; OpDestroy])) = running /\
  do_handle_tick (due (Some [OpSetPeriod 7; OpDestroy]))
  = Ok (periodic_timer_dtor
          (set_period 7
             (emit (Invoke [OpSetPeriod 7; OpDestroy])
                   (set_state executing
                      (due (Some [OpSetPeriod 7; OpDestroy])))))).
Proof.
  split; [reflexivity|]. split; [reflexivity|].
  exact (proj1 (destroy_inside_handler
                  (due (Some [OpSetPeriod 7; OpDestroy]))
                  (set_period 7
                     (emit (Invoke [OpSetPeriod 7; OpDestroy])
                           (set_state executing
                              (due (Some [OpSetPeriod 7; OpDestroy])))))
                  [OpSetPeriod 7]
                  eq_refl (or_introl eq_refl) eq_refl eq_refl)).
Defined.

(** ** Accounting for waits *)

Ltac ledger_cases w :=
  destruct w as [[] ? [? ?] ? ? ?]; unfold ledger in *; cbn in *;
  repeat (progress (rewrite ?invocations_snoc, ?schedulings_snoc,
                             ?length_map, ?length_app, ?app_nil_r in *));
  cbn in *; lia.

Lemma stop_ledger (w : world) : ledger w -> ledger (stop w).
Proof. intros H. unfold stop. ledger_cases w. Qed.

Lemma start_ledger (w : world) : ledger w -> ledger (start w).
Proof. intros H. rewrite start_closed. ledger_cases w. Qed.

Lemma fast_forward_ledger (w : world) : ledger w -> ledger (fast_forward w).
Proof.
  intros H. unfold fast_forward, stop. rewrite start_closed. ledger_cases w.
Qed.

Lemma dtor_ledger (w : world) : ledger w -> ledger (periodic_timer_dtor w).
Proof. intros H. unfold periodic_timer_dtor, stop. ledger_cases w. Qed.

Lemma call_ledger (o : op) (w w' : world) :
  call o w = Ok w' -> ledger w -> ledger w'.
Proof.
  unfold call. destruct (was_destroyed w); [discriminate|].
  destruct o; intros H; inversion H; subst; clear H;
    auto using stop_ledger, start_ledger, fast_forward_ledger, dtor_ledger.
Qed.

Lemma call_all_ledger (ops : list op) (w w' : world) :
  call_all ops w = Ok w' -> ledger w -> ledger w'.
Proof.
  revert w. induction ops as [|o ops IH]; intros w; cbn.
  - intros H; inversion H; subst; auto.
  - intros Hr Hl. apply bind_ok in Hr as (w1 & Hc & Hr).
    eauto using call_ledger.
Qed.

Lemma execute_ledger (w w' : world) :
  (length (invocations (trace w)) + length (waits (timer w)) + 1
   <= schedulings (trace w))%nat ->
  execute w = Ok w' -> ledger w'.
Proof.
  intros Hl. unfold execute, invoke.
  change (handler (set_state executing w)) with (handler w).
  destruct (handler w) as [h|].
  - intros He. apply bind_ok in He as (w2 & Hb & He).
    assert (Hl2 : ledger w2).
    { apply (call_all_ledger _ _ _ Hb). unfold ledger. cbn.
      rewrite invocations_snoc, schedulings_snoc, length_app. cbn. lia. }
    destruct (was_destroyed w2); injection He as <-; [exact Hl2|].
    unfold restart_if_executing.
    destruct (state_eqb (state w2) executing); auto using start_ledger.
  - intros He. injection He as <-. unfold restart_if_executing. cbn.
    apply start_ledger. unfold ledger. cbn. lia.
Qed.

Lemma deliver_ledger (w w' : world) :
  deliver w = Ok w' -> ledger w -> ledger w'.
Proof.
  unfold deliver, wait_handler.
  destruct (waits (timer w)) as [|k ws] eqn:Hw.
  { intros H; inversion H; subst; auto. }
  intros Hdel Hl.
  assert (Hslack : (length (invocations (trace (take_wait w)))
                    + length (waits (timer (take_wait w))) + 1
                    <= schedulings (trace (take_wait w)))%nat).
  { unfold ledger in Hl. rewrite Hw in Hl. cbn in *. rewrite Hw. cbn. lia. }
  assert (Hl' : ledger (take_wait w)) by (unfold ledger; lia).
  change (was_destroyed (take_wait w)) with (was_destroyed w) in Hdel.
  destruct (was_destroyed w); [injection Hdel as <-; exact Hl'|].
  unfold do_handle_tick in Hdel.
  destruct (state (take_wait w)); try discriminate;
    try exact (execute_ledger _ _ Hslack Hdel);
    injection Hdel as <-; try exact Hl'.
  unfold ledger in *. cbn in *.
  repeat (progress (rewrite ?invocations_snoc, ?schedulings_snoc,
                             ?length_map, ?length_app, ?app_nil_r));
    cbn; lia.
Qed.

(** X10.  Every execution of the handler answers a wait of its own:
    on any run, the number of handler invocations plus the number of
    waits still outstanding never exceeds the number of [async_wait]
    calls made.  In particular a timer that never registered a wait
    never runs its handler. *)
Theorem invocations_backed_by_waits (es : list event) (w w' : world) :
  ledger w ->
  run es w = Ok w' ->
  (length (invocations (trace w')) + length (waits (timer w'))
   <= schedulings (trace w'))%nat.
Proof.
  revert w. induction es as [|e es IH]; intros w Hl; cbn [run].
  - intros H; inversion H; subst; exact Hl.
  - intros Hr. apply bind_ok in Hr as (w1 & Hst & Hr).
    apply (IH w1); [|exact Hr].
    destruct e; cbn in Hst; eauto using call_ledger, deliver_ledger.
Qed.

Lemma invocations_backed_by_waits_witness :
  ledger (fresh 50 (Some busy_handler)) /\
  run busy_events (fresh 50 (Some busy_handler)) = Ok busy_final /\
  (length (invocations (trace busy_final)) + length (waits (timer busy_final))
   <= schedulings (trace busy_final))%nat.
Proof.
  assert (H0 : ledger (fresh 50 (Some busy_handler))).
  { unfold ledger. vm_compute. apply le_n. }
  split; [exact H0|]. split; [reflexivity|].
  exact (invocations_backed_by_waits busy_events
           (fresh 50 (Some busy_handler)) busy_final H0 eq_refl).
Defined.

Lemma fast_forward_period (w : world) :
  period_duration (fast_forward w) = period_duration w.
Proof.
  unfold fast_forward, stop. rewrite start_closed.
  destruct w as [[] p t h d tr]; reflexivity.
Qed.

(** X11.  A forced tick.  After [fast_forward] on a live timer whose
    handler only calls [set_period], the next delivery executes the
    handler once and leaves the timer [running] with one new wait
    under the period the handler left: the cycle goes on from the
    forced tick. *)
Theorem fast_forward_then_resumes (w : world) (h : handler_type) :
  consistent w = true ->
  was_destroyed w = false ->
  handler w = Some h ->
  only_periods h = true ->
  exists w',
    deliver (fast_forward w) = Ok w' /\
    state w' = running /\
    handler w' = Some h /\
    invocations (trace w') = invocations (trace w) ++ [h] /\
    waits (timer w') = [mk_wakeup (last_period h (period_duration w)) false].
Proof.
  intros Hc Hd Hh Hp.
  destruct (fast_forward_one_wait w Hd Hc) as (k & Hk & _).
  pose proof (fast_forward_alive w) as Hd'. rewrite Hd in Hd'.
  pose proof (fast_forward_handler w) as Hh'. rewrite Hh in Hh'.
  pose proof (fast_forward_period w) as Hper.
  pose proof (fast_forward_invocations w) as Hinv.
  assert (Hs : state (fast_forward w) = canceling_to_ff) by reflexivity.
  revert Hk Hd' Hh' Hper Hinv Hs.
  generalize (fast_forward w). intros v Hk Hd' Hh' Hper Hinv Hs.
  exists (do_start
            (mk_world executing (last_period h (period_duration v))
                      (mk_steady_timer (expiry (timer v)) [])
                      (Some h) false (trace v ++ [Invoke h]))).
  split.
  - unfold deliver, wait_handler, do_handle_tick. rewrite Hk.
    change (was_destroyed (take_wait v)) with (was_destroyed v).
    change (state (take_wait v)) with (state v).
    rewrite Hd', Hs. unfold execute, invoke.
    change (handler (set_state executing (take_wait v))) with (handler v).
    rewrite Hh'.
    rewrite call_all_only_periods by (cbn; assumption).
    cbn. rewrite Hd', Hh', Hk. cbn. unfold restart_if_executing. cbn.
    rewrite start_closed. reflexivity.
  - cbn. rewrite !invocations_snoc, !app_nil_r, Hinv, Hper.
    repeat split; reflexivity.
Qed.

Lemma fast_forward_then_resumes_witness :
  consistent (fresh 50 (Some [OpSetPeriod 7])) = true /\
  was_destroyed (fresh 50 (Some [OpSetPeriod 7])) = false /\
  handler (fresh 50 (Some [OpSetPeriod 7])) = Some [OpSetPeriod 7] /\
  only_periods [OpSetPeriod 7] = true /\
  exists w',
    deliver (fast_forward (fresh 50 (Some [OpSetPeriod 7]))) = Ok w' /\
    state w' = running /\
    handler w' = Some [OpSetPeriod 7] /\
    invocations (trace w')
    = invocations (trace (fresh 50 (Some [OpSetPeriod 7])))
      ++ [[OpSetPeriod 7]] /\
    waits (timer w')
    = [mk_wakeup
         (last_period [OpSetPeriod 7]
            (period_duration (fresh 50 (Some [OpSetPeriod 7]))))
         false].
Proof.
  split; [reflexivity|]. split; [reflexivity|]. split; [reflexivity|].
  split; [reflexivity|].
  exact (fast_forward_then_resumes (fresh 50 (Some [OpSetPeriod 7]))
           [OpSetPeriod 7] eq_refl eq_refl eq_refl eq_refl).
Defined.

(** ** Accounting for cancellations *)

Ltac books_cases w :=
  let s := fresh "s" in
  let ws := fresh "ws" in
  destruct w as [s ? [? ws] ? ? ?];
  unfold consistent, waits_ok, books, live_waits in *; cbn in *; subst;
  destruct s, ws as [|[? []] [|? ?]]; cbn in *; try discriminate;
  repeat (progress (rewrite ?cancellations_snoc, ?schedulings_snoc in *));
  cbn in *; lia.

Lemma stop_books (w : world) :
  was_destroyed w = false -> consistent w = true ->
  books w -> books (stop w).
Proof. intros Hd Hc Hb. unfold stop. books_cases w. Qed.

Lemma start_books (w : world) :
  was_destroyed w = false -> consistent w = true ->
  books w -> books (start w).
Proof. intros Hd Hc Hb. rewrite start_closed. books_cases w. Qed.

Lemma fast_forward_books (w : world) :
  was_destroyed w = false -> consistent w = true ->
  books w -> books (fast_forward w).
Proof.
  intros Hd Hc Hb. unfold fast_forward, stop. rewrite start_closed.
  books_cases w.
Qed.

Lemma dtor_books (w : world) :
  was_destroyed w = false -> consistent w = true ->
  books w -> books (periodic_timer_dtor w).
Proof. intros Hd Hc Hb. unfold periodic_timer_dtor, stop. books_cases w. Qed.

Lemma call_books (o : op) (w w' : world) :
  call o w = Ok w' -> consistent w = true -> books w -> books w'.
Proof.
  intros Hc Hi Hb. pose proof (call_alive_inv _ _ _ Hc) as Hd.
  unfold call in Hc. rewrite Hd in Hc.
  destruct o; inversion Hc; subst; clear Hc;
    auto using stop_books, start_books, fast_forward_books, dtor_books.
Qed.

Lemma call_all_books (ops : list op) (w w' : world) :
  call_all ops w = Ok w' -> consistent w = true -> books w -> books w'.
Proof.
  revert w. induction ops as [|o ops IH]; intros w; cbn.
  - intros H; inversion H; subst; auto.
  - intros Hr Hi Hb. apply bind_ok in Hr as (w1 & Hc & Hr).
    eauto using call_books, call_consistent.
Qed.

Lemma execute_books (w w' : world) :
  was_destroyed w = false ->
  consistent (set_state executing w) = true ->
  books w ->
  execute w = Ok w' -> books w'.
Proof.
  intros Hd Hi Hb. unfold execute, invoke.
  change (handler (set_state executing w)) with (handler w).
  destruct (handler w) as [h|].
  - set (w1 := emit (Invoke h) (set_state executing w)).
    assert (Hi1 : consistent w1 = true).
    { subst w1. unfold consistent, waits_ok in *. cbn in *.
      autorewrite with trace_db. exact Hi. }
    assert (Hb1 : books w1).
    { subst w1. unfold books, live_waits in *. cbn.
      rewrite cancellations_snoc, schedulings_snoc. cbn. lia. }
    intros He. apply bind_ok in He as (w2 & Hr & He).
    pose proof (call_all_consistent _ _ _ Hr Hi1) as Hi2.
    pose proof (call_all_books _ _ _ Hr Hi1 Hb1) as Hb2.
    destruct (was_destroyed w2) eqn:Hd2; injection He as <-; [exact Hb2|].
    unfold restart_if_executing.
    destruct (state_eqb (state w2) executing); auto using start_books.
  - intros He. injection He as <-. unfold restart_if_executing. cbn.
    apply start_books; auto.
Qed.

Lemma deliver_books (w w' : world) :
  quiescent w = true -> books w -> deliver w = Ok w' -> books w'.
Proof.
  intros Hq Hb. unfold deliver, wait_handler.
  destruct (waits (timer w)) as [|k ws] eqn:Hw.
  { intros H; inversion H; subst; assumption. }
  change (was_destroyed (take_wait w)) with (was_destroyed w).
  assert (Hb' : books (take_wait w)).
  { unfold books, live_waits in *. cbn. rewrite Hw in *. cbn in *.
    destruct (negb (wk_cancelled k)); cbn in *; lia. }
  destruct (was_destroyed w) eqn:Hd.
  { intros H; inversion H; subst; exact Hb'. }
  assert (Hone : ws = [] /\ trace_ok false (trace w) = true).
  { unfold quiescent, consistent, waits_ok in Hq. rewrite Hd, Hw in Hq.
    apply andb_true_iff in Hq as [Hq _].
    apply andb_true_iff in Hq as [Hq Ht].
    destruct (state w), ws; try discriminate; auto. }
  destruct Hone as [-> Ht].
  assert (Hi : consistent (set_state executing (take_wait w)) = true).
  { unfold consistent, waits_ok. cbn. rewrite Hd, Hw. cbn. exact Ht. }
  unfold do_handle_tick. change (state (take_wait w)) with (state w).
  destruct (state w); try discriminate;
    try (apply execute_books; assumption);
    intros H; injection H as <-; try exact Hb'.
  unfold books, live_waits in *. cbn in *. rewrite Hw in *. cbn in *.
  rewrite !cancellations_snoc, !schedulings_snoc. cbn.
  destruct (negb (wk_cancelled k)); cbn in *; lia.
Qed.

(** X12.  On every run of a new timer, [timer.cancel()] is called at
    most once per registered wait and only while a wait not yet asked
    to cancel is outstanding: the number of cancellations plus the
    number of such waits never exceeds the number of [async_wait]
    calls. *)
Theorem cancel_once_per_wait
  (d0 : Z) (h0 : option handler_type) (es : list event) (w : world) :
  run es (fresh d0 h0) = Ok w ->
  (cancellations (trace w) + live_waits w <= schedulings (trace w))%nat.
Proof.
  assert (Hgen : forall es v,
            quiescent v = true -> books v -> run es v = Ok w -> books w).
  { clear es. induction es as [|e es IH]; intros v Hq Hb; cbn [run].
    - intros H; inversion H; subst; exact Hb.
    - intros Hr. apply bind_ok in Hr as (v1 & Hst & Hr).
      apply (IH v1); [exact (step_quiescent _ _ _ Hq Hst)| |exact Hr].
      destruct e as [o|]; cbn in Hst.
      + unfold quiescent in Hq. apply andb_true_iff in Hq as [Hc _].
        exact (call_books _ _ _ Hst Hc Hb).
      + exact (deliver_books _ _ Hq Hb Hst). }
  intros Hr. apply (Hgen es (fresh d0 h0)); [| |exact Hr].
  - destruct h0; reflexivity.
  - destruct h0; unfold books, live_waits, cancellations, schedulings;
      cbn; lia.
Qed.

Lemma cancel_once_per_wait_witness :
  run busy_events (fresh 50 (Some busy_handler)) = Ok busy_final /\
  (cancellations (trace busy_final) + live_waits busy_final
   <= schedulings (trace busy_final))%nat.
Proof.
  split; [reflexivity|].
  exact (cancel_once_per_wait 50 (Some busy_handler) busy_events busy_final
                              eq_refl).
Defined.
